(** * wriggler: robust Twitter crawler primitives (src/twitter.py)

    A shallow embedding of [check_rate_limit], [user_timeline],
    [users_lookup] and [users_show], and the properties of the retry,
    pagination and rate-limit loop that they share.

    What the embedding keeps from the source:
    - a response is its [status_code], its [headers] (a dictionary from
      lower-case header names to strings) and its decoded body [json];
    - every observable action is an [event] in a trace: a header lookup,
      a log call, a call of [sleep], a call of [req.get];
    - Python exceptions are an outcome ([Exc]) that skips the rest of the
      computation, and [try ... except KeyError] is [try_except_KeyError];
    - the HTTP collaborator [req.get] is a script: the list of responses
      the server gives, one per request, in order.  When the script is
      used up while the loop is still asking, the outcome is [Pending]
      (the operation is blocked in [req.get], still retrying).

    What is outside the embedding: OAuth signing, the network (timeouts
    and connection errors of [req.get]) and JSON decoding (a body is
    given already decoded, with the shape its operation expects: for the
    timeline a list of records that each have an id).

    The runtime is 64-bit CPython 3: [int] and [time.sleep] raise what
    they raise there.  The [times] library is a parameter. *)

From Stdlib Require Import ZArith String Ascii List Lia Bool.
From stdpp Require Import gmap strings list fin_maps fin_sets.

#[local] Set Warnings "-clear-no-such-hyp".

Local Open Scope string_scope.
Local Open Scope list_scope.
Local Open Scope Z_scope.

(** ** Constants *)

Definition RESET_BUFFER : Z := 60.
Definition RATE_LIMIT_BUFFER : Z := 5.
Definition FAILURE_RETRY : Z := 60.
Definition MAX_RETRY : Z := 24 * 60.

(** ** Effects: traces, exceptions, a small monad *)

(** The exceptions the code can meet, as CPython 3 raises them:
    [KeyError] for a missing dictionary key, [ValueError] for a string
    that [int] or the date parser cannot read and for a negative sleep
    length, [OverflowError] for a sleep length too large for the
    runtime's clock, [SystemExit] for the exit of the process. *)
Inductive exn : Type :=
| KeyError (key : string)
| ValueError
| OverflowError
| SystemExit.

Inductive level : Type := LDebug | LInfo | LWarn | LError | LCritical.

(** Observable actions.  A log event keeps the level and the format
    string of the call; the formatted arguments are not kept. *)
Inductive event : Type :=
| EHeader (name : string)                 (* r.headers[name] *)
| ELog (lvl : level) (fmt : string)       (* log.<lvl>(fmt, ...) *)
| ESleep (secs : Z)                       (* sleep(secs) *)
| EGet (url : string) (max_id : option Z) (* req.get(url, params=...) *).

Inductive result (A : Type) : Type :=
| Val (a : A)        (* normal completion *)
| Exc (e : exn)      (* an exception propagates *)
| Pending.           (* blocked in req.get: the script has no answer yet *)
Arguments Val {A} a.
Arguments Exc {A} e.
Arguments Pending {A}.

Definition M (A : Type) : Type := (list event * result A)%type.

Definition ret {A} (a : A) : M A := ([], Val a).
Definition raise {A} (e : exn) : M A := ([], Exc e).
Definition pending {A} : M A := ([], Pending).
Definition emit (ev : event) : M unit := ([ev], Val tt).

Definition bind {A B} (m : M A) (f : A -> M B) : M B :=
  match m with
  | (t, Val a) => let (t', r) := f a in (t ++ t', r)
  | (t, Exc e) => (t, Exc e)
  | (t, Pending) => (t, Pending)
  end.

Declare Scope py_scope.
Delimit Scope py_scope with py.
Notation "x <- c1 ;; c2" := (bind c1 (fun x => c2))
  (at level 100, c1 at next level, right associativity) : py_scope.
Notation "c1 ;; c2" := (bind c1 (fun _ => c2))
  (at level 100, right associativity) : py_scope.
Local Open Scope py_scope.

(** [try: body except KeyError as e: handler(e)]: only a [KeyError] is
    caught; any other exception passes through. *)
Definition try_except_KeyError {A} (body : M A) (handler : string -> M A) : M A :=
  match body with
  | (t, Exc (KeyError k)) => let (t', r) := handler k in (t ++ t', r)
  | other => other
  end.

Definition trace {A} (m : M A) : list event := fst m.
Definition outcome {A} (m : M A) : result A := snd m.

(** Projections of a trace. *)
Definition sleeps (t : list event) : list Z :=
  omap (fun ev => match ev with ESleep d => Some d | _ => None end) t.
Definition header_reads (t : list event) : list string :=
  omap (fun ev => match ev with EHeader k => Some k | _ => None end) t.
Definition logs (t : list event) : list (level * string) :=
  omap (fun ev => match ev with ELog l f => Some (l, f) | _ => None end) t.
Definition requests (t : list event) : list (string * option Z) :=
  omap (fun ev => match ev with EGet u c => Some (u, c) | _ => None end) t.

(** ** Primitives of the runtime *)

(** The longest sleep the runtime takes, in seconds: [time.sleep] keeps
    its length as a signed 64-bit count of nanoseconds, and a whole
    number of seconds beyond 9223372036 (2^63 / 10^9) does not fit. *)
Definition SLEEP_MAX : Z := 9223372036.

(** What [time.sleep(secs)] does with a whole number of seconds on
    64-bit CPython 3: a length that does not fit the clock raises
    OverflowError, a negative one that fits raises ValueError ("sleep
    length must be non-negative"), any other is slept. *)
Definition sleep_rejects (secs : Z) : option exn :=
  if (secs <? - SLEEP_MAX) || (SLEEP_MAX <? secs) then Some OverflowError
  else if secs <? 0 then Some ValueError
  else None.

(** [sleep(secs)]: the call is observed with its argument, then the
    runtime sleeps or rejects the length. *)
Definition sleep (secs : Z) : M unit :=
  emit (ESleep secs);;
  match sleep_rejects secs with
  | Some e => raise e
  | None => ret tt
  end.

Definition log (lvl : level) (fmt : string) : M unit := emit (ELog lvl fmt).

(** [int(s)] on a string: optional surrounding white space, an optional
    sign, then one or more decimal digits; anything else is a
    ValueError.  (Python 3 also reads digits grouped by single
    underscores; [parse_int] takes such a string as unreadable, so that
    whatever it reads, Python reads too, to the same number.) *)
Definition is_space (c : ascii) : bool :=
  let n := nat_of_ascii c in
  ((9 <=? n) && (n <=? 13))%nat || (n =? 32)%nat.

Definition digit_of (c : ascii) : option Z :=
  let n := Z.of_nat (nat_of_ascii c) in
  if (48 <=? n) && (n <=? 57) then Some (n - 48) else None.

Fixpoint digits (acc : Z) (l : list ascii) : option Z :=
  match l with
  | [] => Some acc
  | c :: l' =>
      match digit_of c with
      | Some d => digits (10 * acc + d) l'
      | None => None
      end
  end.

Fixpoint lstrip (l : list ascii) : list ascii :=
  match l with
  | c :: l' => if is_space c then lstrip l' else l
  | [] => []
  end.

Definition strip (l : list ascii) : list ascii :=
  rev (lstrip (rev (lstrip l))).

Definition parse_int (s : string) : option Z :=
  match strip (list_ascii_of_string s) with
  | [] => None
  | "-"%char :: ds => match ds with [] => None | _ => Z.opp <$> digits 0 ds end
  | "+"%char :: ds => match ds with [] => None | _ => digits 0 ds end
  | ds => digits 0 ds
  end.

Definition int (s : string) : M Z :=
  match parse_int s with
  | Some z => ret z
  | None => raise ValueError
  end.

(** ** Responses *)

(** A response of [req.get].  [json] is the decoded body; its type [B]
    is the shape the calling operation expects. *)
Record Response (B : Type) : Type := mkResponse {
  status_code : Z;
  headers : gmap string string;
  json : B
}.
Arguments mkResponse {B} _ _ _.
Arguments status_code {B} _.
Arguments headers {B} _.
Arguments json {B} _.

(** [r.headers[name]]: a missing key raises [KeyError]. *)
Definition header {B} (r : Response B) (name : string) : M string :=
  emit (EHeader name);;
  match headers r !! name with
  | Some v => ret v
  | None => raise (KeyError name)
  end.

(** A record of a timeline: its unique identifier and the rest of it. *)
Record tweet : Type := mkTweet {
  tweet_id : Z;
  tweet_text : string
}.

(** ** Fixtures: a date parser and responses to evaluate the code on *)

(** A stand-in for the [times] library on three HTTP dates. *)
Definition sample_parse (s : string) : option Z :=
  if String.eqb s "Thu, 01 Jan 1970 00:16:40 GMT" then Some 1000
  else if String.eqb s "Thu, 01 Jan 1970 00:33:20 GMT" then Some 2000
  else if String.eqb s "Tue, 03 Nov 2026 00:00:00 GMT" then Some 1793664000
  else None.

Definition sample_to_unix (d : Z) : Z := d.

Definition mk_headers (l : list (string * string)) : gmap string string :=
  list_to_map l.

(** remaining=3, reset=T+100, date=T with T=1000. *)
Definition hdr_low : gmap string string :=
  mk_headers [("x-rate-limit-remaining", "3");
              ("date", "Thu, 01 Jan 1970 00:16:40 GMT");
              ("x-rate-limit-reset", "1100")].

(** remaining=3, and a reset time 1000 seconds before the server time. *)
Definition hdr_skew : gmap string string :=
  mk_headers [("x-rate-limit-remaining", "3");
              ("date", "Thu, 01 Jan 1970 00:33:20 GMT");
              ("x-rate-limit-reset", "1000")].

(** Plenty of calls left, and no other rate-limit header. *)
Definition hdr_high : gmap string string :=
  mk_headers [("x-rate-limit-remaining", "170")].

(** A remaining-calls value that is not a number. *)
Definition hdr_bad : gmap string string :=
  mk_headers [("x-rate-limit-remaining", "abc");
              ("date", "Thu, 01 Jan 1970 00:16:40 GMT");
              ("x-rate-limit-reset", "1100")].

Definition r_skew : Response unit := mkResponse 200 hdr_skew tt.
Definition r_high : Response unit := mkResponse 200 hdr_high tt.
Definition r_bare : Response unit := mkResponse 200 ∅ tt.

(** A timeline in three pages: two that bring new records, the second
    overlapping the first, and one that repeats the oldest record. *)
Definition page_a : Response (list tweet) :=
  mkResponse 200 hdr_high [mkTweet 5 "five"; mkTweet 4 "four"].
Definition page_b : Response (list tweet) :=
  mkResponse 200 hdr_high [mkTweet 4 "four"; mkTweet 3 "three"].
Definition page_c : Response (list tweet) :=
  mkResponse 200 hdr_high [mkTweet 3 "three"].
Definition page_gone : Response (list tweet) :=
  mkResponse 404 hdr_high [].

(** Answers to a lookup: a server error, a not-found, a throttle with an
    unreadable remaining-calls header, a refusal with a reason. *)
Definition r_500 : Response (list string) := mkResponse 500 hdr_high [].
Definition r_404 : Response (list string) := mkResponse 404 hdr_high [].
Definition r_400_bad : Response string := mkResponse 400 hdr_bad "throttled".
Definition r_400_bare : Response string := mkResponse 400 ∅ "throttled".
Definition r_403 : Response string := mkResponse 403 hdr_high "suspended".

(** A throttled timeline answer, and refusals (401) for each operation. *)
Definition page_400 : Response (list tweet) := mkResponse 400 hdr_high [].
Definition page_401 : Response (list tweet) := mkResponse 401 hdr_high [].
Definition r_401 : Response (list string) := mkResponse 401 hdr_high [].
Definition r_401s : Response string := mkResponse 401 hdr_high "protected".
Definition r_200 : Response (list string) := mkResponse 200 hdr_high ["alice"; "bob"].
Definition r_200s : Response string := mkResponse 200 hdr_low "alice".


(** Few calls left, a date that cannot be read, and no reset header. *)
Definition hdr_nodate : gmap string string :=
  mk_headers [("x-rate-limit-remaining", "3"); ("date", "not a date")].

Definition r_nodate : Response unit := mkResponse 200 hdr_nodate tt.

(** The same answers as above with a remaining-calls header that is not
    a number. *)
Definition page_a_bad : Response (list tweet) :=
  mkResponse 200 hdr_bad [mkTweet 5 "five"; mkTweet 4 "four"].
Definition page_gone_bad : Response (list tweet) := mkResponse 404 hdr_bad [].
Definition r_200s_bad : Response string := mkResponse 200 hdr_bad "alice".

(** ** The code *)

(** How one pass through a [while] body ends: [continue] with the new
    values of the loop variables, or [return]. *)
Inductive step (S A : Type) : Type :=
| Continue (s : S)
| Return (a : A).
Arguments Continue {S A} s.
Arguments Return {S A} a.

Section Twitter.

(** The [times] library: [times.parse] reads a date (and raises on a
    string it cannot read), [times.to_unix] gives its unix time. *)
Variable datetime : Type.
Variable times_parse : string -> option datetime.
Variable times_to_unix : datetime -> Z.

Definition parse (s : string) : M datetime :=
  match times_parse s with
  | Some d => ret d
  | None => raise ValueError
  end.

Definition check_rate_limit {B} (r : Response B) : M unit :=
  try_except_KeyError
    (remain <- header r "x-rate-limit-remaining";;
     remain <- int remain;;
     if remain <=? RATE_LIMIT_BUFFER then
       log LDebug "Hit rate limit - {}";;
       now <- header r "date";;
       now <- parse now;;
       let now := times_to_unix now in
       reset <- header r "x-rate-limit-reset";;
       reset <- int reset;;
       log LDebug "Rate limit reset in {} seconds";;
       sleep (reset - now + RESET_BUFFER)
     else ret tt)
    (fun e =>
       log LError "Header not found - {}";;
       sleep FAILURE_RETRY).

(** *** The retry loop

    [while tries < MAX_RETRY: r = req.get(...); <body>], followed by
    [log.critical(...); raise SystemExit()].  The loop variables are a
    state [S]; [body] is one pass after the response has arrived. *)
Section Loop.
Context {S B A : Type}.
Variable tries_of : S -> Z.
Variable request_of : S -> event.
Variable body : S -> Response B -> M (step S A).

Fixpoint retry_loop (st : S) (script : list (Response B)) {struct script} : M A :=
  if tries_of st <? MAX_RETRY then
    emit (request_of st);;
    match script with
    | [] => pending
    | r :: script' =>
        x <- body st r;;
        match x with
        | Continue st' => retry_loop st' script'
        | Return a => ret a
        end
    end
  else
    log LCritical "Maximum retries exhausted ...";;
    raise SystemExit.

(** What follows a finished pass. *)
Definition after (script : list (Response B)) (x : step S A) : M A :=
  match x with
  | Continue st' => retry_loop st' script
  | Return a => ret a
  end.

(** The loop run over the responses [pre] only: where it stands when
    they are used up ([Continue st]: about to test its condition in
    state [st]), or what it returned. *)
Fixpoint retry_iter (st : S) (pre : list (Response B)) {struct pre} : M (step S A) :=
  match pre with
  | [] => ret (Continue st)
  | r :: pre' =>
      if tries_of st <? MAX_RETRY then
        emit (request_of st);;
        x <- body st r;;
        match x with
        | Continue st' => retry_iter st' pre'
        | Return a => ret (Return a)
        end
      else
        log LCritical "Maximum retries exhausted ...";;
        raise SystemExit
  end.
End Loop.

(** *** user_timeline *)

Definition timeline_url : string :=
  "http://api.twitter.com/1.1/statuses/user_timeline.json".

(** The loop variables of [user_timeline]: [tweets], [ids], [tcount],
    [params["max_id"]] (absent until the first page) and [tries]. *)
Record tl_state : Type := mkTl {
  tweets : list tweet;
  ids : gset Z;
  tcount : nat;
  max_id : option Z;
  tries : Z
}.

Definition tl_init : tl_state :=
  {| tweets := []; ids := ∅; tcount := 0%nat; max_id := None; tries := 0 |}.

Definition tl_retry (st : tl_state) : tl_state :=
  {| tweets := tweets st; ids := ids st; tcount := tcount st;
     max_id := max_id st; tries := tries st + 1 |}.

(** [if tweet["id"] not in ids: tweets.append(tweet); ids.add(tweet["id"])] *)
Definition add_tweet (acc : list tweet * gset Z) (tw : tweet) : list tweet * gset Z :=
  if decide (tweet_id tw ∈ acc.2) then acc
  else (acc.1 ++ [tw], acc.2 ∪ {[tweet_id tw]}).

(** [for tweet in r.json(): ...] *)
Definition add_page (acc : list tweet * gset Z) (page : list tweet) : list tweet * gset Z :=
  fold_left add_tweet page acc.

(** [min(ids)]: ValueError on an empty set. *)
Definition py_min (X : gset Z) : M Z :=
  match elements X with
  | [] => raise ValueError
  | x :: l => ret (foldr Z.min x l)
  end.

Definition not_found3 (code : Z) : bool :=
  (code =? 401) || (code =? 403) || (code =? 404).

Definition user_timeline_body (st : tl_state) (r : Response (list tweet))
  : M (step tl_state (list tweet)) :=
  if status_code r =? 200 then
    let acc := add_page (tweets st, ids st) (json r) in
    if decide (size acc.2 = tcount st) then ret (Return acc.1)
    else
      m <- py_min acc.2;;
      check_rate_limit r;;
      ret (Continue {| tweets := acc.1; ids := acc.2; tcount := size acc.2;
                       max_id := Some m; tries := 0 |})
  else if status_code r =? 400 then
    log LInfo "Try {}: Being throttled - {} {}";;
    check_rate_limit r;;
    ret (Continue (tl_retry st))
  else if not_found3 (status_code r) then
    log LInfo "Try {}: User doesn't exist - {} {}";;
    check_rate_limit r;;
    ret (Return (tweets st))
  else
    log LWarn "Try {}: Unexepectd response - {} {}";;
    check_rate_limit r;;
    ret (Continue (tl_retry st)).

Definition user_timeline_loop : tl_state -> list (Response (list tweet)) -> M (list tweet) :=
  retry_loop tries (fun st => EGet timeline_url (max_id st)) user_timeline_body.

Definition user_timeline_iter
  : tl_state -> list (Response (list tweet)) -> M (step tl_state (list tweet)) :=
  retry_iter tries (fun st => EGet timeline_url (max_id st)) user_timeline_body.

(** [user_timeline(user_id, token)] against the server's responses. *)
Definition user_timeline (script : list (Response (list tweet))) : M (list tweet) :=
  user_timeline_loop tl_init script.

(** *** users_lookup *)

Definition lookup_url : string := "http://api.twitter.com/1.1/users/lookup.json".

Definition not_found2 (code : Z) : bool := (code =? 403) || (code =? 404).

Definition users_lookup_body {P} (tries : Z) (r : Response (list P))
  : M (step Z (list P)) :=
  if status_code r =? 200 then
    check_rate_limit r;;
    ret (Return (json r))
  else if not_found2 (status_code r) then
    log LInfo "Try {}: User doesn't exist - {} {}";;
    check_rate_limit r;;
    ret (Return [])
  else if status_code r =? 400 then
    log LInfo "Try {}: Being throttled - {} {}";;
    check_rate_limit r;;
    ret (Continue (tries + 1))
  else
    log LWarn "Try {}: Unexepectd response - {} {}";;
    check_rate_limit r;;
    ret (Continue (tries + 1)).

Definition users_lookup_loop {P} : Z -> list (Response (list P)) -> M (list P) :=
  retry_loop (fun tries => tries) (fun _ => EGet lookup_url None) users_lookup_body.

Definition users_lookup {P} (script : list (Response (list P))) : M (list P) :=
  users_lookup_loop 0 script.

(** *** users_show *)

Definition show_url : string := "http://api.twitter.com/1.1/users/show.json".

Definition users_show_body {J} (tries : Z) (r : Response J) : M (step Z (Z * J)) :=
  if status_code r =? 200 then
    check_rate_limit r;;
    ret (Return (200, json r))
  else if not_found2 (status_code r) then
    check_rate_limit r;;
    ret (Return (status_code r, json r))
  else if status_code r =? 400 then
    log LInfo "Try {}: Being throttled - {} {}";;
    check_rate_limit r;;
    ret (Continue (tries + 1))
  else
    log LWarn "Try {}: Unexepectd response - {} {}";;
    check_rate_limit r;;
    ret (Continue (tries + 1)).

Definition users_show_loop {J} : Z -> list (Response J) -> M (Z * J) :=
  retry_loop (fun tries => tries) (fun _ => EGet show_url None) users_show_body.

Definition users_show {J} (script : list (Response J)) : M (Z * J) :=
  users_show_loop 0 script.

(** ** What a response says about the rate limit *)

(** The values the code reads from the headers, when present and
    readable: [int(r.headers["x-rate-limit-remaining"])],
    [times.to_unix(times.parse(r.headers["date"]))] and
    [int(r.headers["x-rate-limit-reset"])]. *)
Definition remaining_of {B} (r : Response B) : option Z :=
  headers r !! "x-rate-limit-remaining" ≫= parse_int.

Definition server_time_of {B} (r : Response B) : option Z :=
  times_to_unix <$> (headers r !! "date" ≫= times_parse).


(** A header that [check_rate_limit] looks up is not in the response:
    the remaining-calls header; or, once that one reads as a number at
    or under the low-water mark, the date header; or, once the date has
    been read too, the reset header. *)
Definition required_header_absent {B} (r : Response B) : Prop :=
  headers r !! "x-rate-limit-remaining" = None ∨
  (∃ remain, remaining_of r = Some remain ∧ remain <= RATE_LIMIT_BUFFER ∧
     (headers r !! "date" = None ∨
      (is_Some (server_time_of r) ∧ headers r !! "x-rate-limit-reset" = None))).

(** Every rate-limit header value that [check_rate_limit] reads can be
    read (an absent header is fine: the handler takes it), and the sleep
    length it computes is one that [sleep] takes: not negative and at
    most [SLEEP_MAX]. *)
Definition headers_wellformed {B} (r : Response B) : bool :=
  match headers r !! "x-rate-limit-remaining" with
  | None => true
  | Some s1 =>
      match parse_int s1 with
      | None => false
      | Some remain =>
          if remain <=? RATE_LIMIT_BUFFER then
            match headers r !! "date" with
            | None => true
            | Some s2 =>
                match times_parse s2 with
                | None => false
                | Some d =>
                    match headers r !! "x-rate-limit-reset" with
                    | None => true
                    | Some s3 =>
                        match parse_int s3 with
                        | None => false
                        | Some reset =>
                            (0 <=? reset - times_to_unix d + RESET_BUFFER)
                            && (reset - times_to_unix d + RESET_BUFFER <=? SLEEP_MAX)
                        end
                    end
                end
            end
          else true
      end
  end.

(** ** What a run of pages holds *)

(** The ids of the records of a page. *)
Definition page_ids (page : list tweet) : gset Z :=
  list_to_set (tweet_id <$> page).

(** The records of the successful (HTTP 200) responses, in order of
    arrival. *)
Definition bodies (rs : list (Response (list tweet))) : list tweet :=
  concat (json <$> filter (λ r, status_code r = 200) rs).

(** The records of a list without the later ones that repeat an id: each
    id once, at the place where it is first seen. *)
Fixpoint first_seen (l : list tweet) : list tweet :=
  match l with
  | [] => []
  | tw :: l' => tw :: filter (λ u, tweet_id u ≠ tweet_id tw) (first_seen l')
  end.

(** Every page brings at least one id that no page before it (nor
    [seen]) has. *)
Fixpoint progressing (seen : gset Z) (pages : list (Response (list tweet))) : Prop :=
  match pages with
  | [] => True
  | r :: ps =>
      ¬ (page_ids (json r) ⊆ seen) ∧ progressing (seen ∪ page_ids (json r)) ps
  end.

(** A status that the lookups retry: neither 200 nor 403 nor 404. *)
Definition retried (code : Z) : bool :=
  negb ((code =? 200) || not_found2 code).

(** The log call of the two retrying branches: "throttled" for a 400,
    "unexpected" for the rest. *)
Definition retry_log (code : Z) : M unit :=
  if code =? 400 then log LInfo "Try {}: Being throttled - {} {}"
  else log LWarn "Try {}: Unexepectd response - {} {}".

(** What the loop does once its condition fails. *)
Definition exhausted {A} : M A :=
  log LCritical "Maximum retries exhausted ...";;
  raise SystemExit.

(** The loop variables of [user_timeline] at the head of the loop, once
    the records [seen] have arrived in successful pages. *)
Definition tl_inv (seen : list tweet) (st : tl_state) : Prop :=
  (tweets st, ids st) = add_page ([], ∅) seen ∧ tcount st = size (ids st).

(** The coordinator run on each response of a list, in order. *)
Definition check_all {B} (rs : list (Response B)) : M unit :=
  foldr (λ r m, check_rate_limit r;; m) (ret tt) rs.

(** A response without its date and reset-time headers. *)
Definition without_date_and_reset {B} (r : Response B) : Response B :=
  mkResponse (status_code r)
    (delete "date" (delete "x-rate-limit-reset" (headers r)))
    (json r).

(** A status that [user_timeline] retries: neither 200 nor 401, 403 or
    404. *)
Definition retried3 (code : Z) : bool :=
  negb ((code =? 200) || not_found3 code).

(** The remaining-calls header reads as a number above the low-water
    mark. *)
Definition calls_left {B} (r : Response B) : bool :=
  match remaining_of r with
  | Some remain => RATE_LIMIT_BUFFER <? remain
  | None => false
  end.

(** The cursor of [user_timeline] once the records [seen] have arrived:
    absent before any record, and then the least id seen. *)
Definition tl_cursor (seen : list tweet) (st : tl_state) : Prop :=
  match max_id st with
  | None => seen = []
  | Some m => m ∈ page_ids seen ∧ ∀ x, x ∈ page_ids seen -> m <= x
  end.

(** * Properties *)

(** ** check_rate_limit *)

Ltac crl_unfold :=
  unfold check_rate_limit, header, int, parse, sleep, log, emit, bind, ret,
    raise, try_except_KeyError;
  change (sleep_rejects FAILURE_RETRY) with (@None exn).

(** Case analysis on what [sleep] does with a length. *)
Ltac sleep_cases :=
  match goal with
  | |- context [sleep_rejects ?d] =>
      let Es := fresh "Es" in
      destruct (sleep_rejects d) as [[?| | |]|] eqn:Es;
      [ exfalso; unfold sleep_rejects in Es;
        destruct ((d <? - SLEEP_MAX) || (SLEEP_MAX <? d)); [discriminate Es|];
        destruct (d <? 0); discriminate Es
      | |
      | exfalso; unfold sleep_rejects in Es;
        destruct ((d <? - SLEEP_MAX) || (SLEEP_MAX <? d)); [discriminate Es|];
        destruct (d <? 0); discriminate Es
      | ]
  end.

Lemma sleep_rejects_None secs :
  sleep_rejects secs = None ↔ 0 <= secs <= SLEEP_MAX.
Proof.
  unfold sleep_rejects.
  destruct (Z.ltb_spec secs (- SLEEP_MAX)), (Z.ltb_spec SLEEP_MAX secs),
    (Z.ltb_spec secs 0); simpl; unfold SLEEP_MAX in *;
    (split; [intros Hs; first [discriminate Hs | lia]
            | intros Hs; first [lia | done]]).
Qed.


Lemma sleep_rejects_negative secs : secs < 0 -> sleep_rejects secs ≠ None.
Proof. intros H E. apply sleep_rejects_None in E. lia. Qed.

Lemma sleep_rejects_FAILURE_RETRY : sleep_rejects FAILURE_RETRY = None.
Proof. reflexivity. Qed.

Lemma bind_opt_Some {A C} (o : option A) (f : A -> option C) (c : C) :
  o ≫= f = Some c -> ∃ a, o = Some a ∧ f a = Some c.
Proof. destruct o as [a|]; simpl; [eauto | discriminate]. Qed.

Lemma server_time_Some {B} (r : Response B) (now : Z) :
  server_time_of r = Some now ->
  ∃ s d, headers r !! "date" = Some s ∧ times_parse s = Some d ∧ times_to_unix d = now.
Proof.
  unfold server_time_of. intros H.
  destruct (headers r !! "date") as [s|] eqn:Hs; simpl in H; [|discriminate].
  destruct (times_parse s) as [d|] eqn:Hd; simpl in H; [|discriminate].
  exists s, d. repeat split; congruence.
Qed.

(** Calls left above the low-water mark: one header lookup, nothing else. *)
Lemma check_rate_limit_high {B} (r : Response B) (remain : Z) :
  remaining_of r = Some remain -> RATE_LIMIT_BUFFER < remain ->
  check_rate_limit r = ([EHeader "x-rate-limit-remaining"], Val tt).
Proof.
  intros Hr Hlt. apply bind_opt_Some in Hr as (s & Hs & Hp).
  crl_unfold. rewrite Hs. simpl. rewrite Hp.
  destruct (remain <=? RATE_LIMIT_BUFFER) eqn:E; [lia | reflexivity].
Qed.


(** A looked-up header is absent: the handler runs after the lookups
    made so far; it logs the error and sleeps [FAILURE_RETRY]. *)
Lemma check_rate_limit_absent {B} (r : Response B) :
  required_header_absent r ->
  ∃ t, check_rate_limit r =
         (t ++ [ELog LError "Header not found - {}"; ESleep FAILURE_RETRY], Val tt)
       ∧ sleeps t = [] ∧ Forall (λ l, l.1 = LDebug) (logs t).
Proof.
  intros [H1 | (remain & Hr & Hle & Hrest)].
  - exists [EHeader "x-rate-limit-remaining"].
    crl_unfold. rewrite H1. simpl. repeat split; constructor.
  - apply bind_opt_Some in Hr as (s1 & H1 & P1).
    destruct Hrest as [H2 | [[now Hn] H3]].
    + exists [EHeader "x-rate-limit-remaining"; ELog LDebug "Hit rate limit - {}";
              EHeader "date"].
      crl_unfold. rewrite H1. simpl. rewrite P1.
      destruct (remain <=? RATE_LIMIT_BUFFER) eqn:E; [|lia].
      simpl. rewrite H2. simpl. repeat split; repeat constructor.
    + apply server_time_Some in Hn as (s2 & d & H2 & P2 & _).
      exists [EHeader "x-rate-limit-remaining"; ELog LDebug "Hit rate limit - {}";
              EHeader "date"; EHeader "x-rate-limit-reset"].
      crl_unfold. rewrite H1. simpl. rewrite P1.
      destruct (remain <=? RATE_LIMIT_BUFFER) eqn:E; [|lia].
      simpl. rewrite H2. simpl. rewrite P2. simpl. rewrite H3. simpl.
      repeat split; repeat constructor.
Qed.

(** The handler runs - the error is logged - exactly when a looked-up
    header is absent. *)
Lemma check_rate_limit_error_logged_iff {B} (r : Response B) :
  (LError, "Header not found - {}") ∈ logs (trace (check_rate_limit r))
  ↔ required_header_absent r.
Proof.
  split.
  - unfold required_header_absent, remaining_of, server_time_of. crl_unfold.
    destruct (headers r !! "x-rate-limit-remaining") as [s1|]; simpl; [|by left].
    destruct (parse_int s1) as [remain|]; simpl; [|set_solver].
    destruct (remain <=? RATE_LIMIT_BUFFER) eqn:E; simpl; [|set_solver].
    intros H. right. exists remain. split; [done|]. split; [lia|]. revert H.
    destruct (headers r !! "date") as [s2|]; simpl; [|by left].
    destruct (times_parse s2) as [d|]; simpl; [|set_solver].
    destruct (headers r !! "x-rate-limit-reset") as [s3|]; simpl; [|by right].
    destruct (parse_int s3) as [reset|]; simpl; [|set_solver].
    sleep_cases; set_solver.
  - intros Habs. destruct (check_rate_limit_absent r Habs) as (t & -> & _).
    unfold trace, logs. simpl. rewrite omap_app. apply elem_of_app. right. by left.
Qed.

(** [headers_wellformed] decides whether the coordinator completes. *)
Lemma check_rate_limit_completes {B} (r : Response B) :
  headers_wellformed r = true -> ∃ t, check_rate_limit r = (t, Val tt).
Proof.
  unfold headers_wellformed. crl_unfold.
  destruct (headers r !! "x-rate-limit-remaining") as [s1|]; simpl; [|eauto].
  destruct (parse_int s1) as [remain|]; simpl; [|discriminate].
  destruct (remain <=? RATE_LIMIT_BUFFER); simpl; [|eauto].
  destruct (headers r !! "date") as [s2|]; simpl; [|eauto].
  destruct (times_parse s2) as [d|]; simpl; [|discriminate].
  destruct (headers r !! "x-rate-limit-reset") as [s3|]; simpl; [|eauto].
  destruct (parse_int s3) as [reset|]; simpl; [|discriminate].
  intros H. rewrite (proj2 (sleep_rejects_None _)) by lia. eauto.
Qed.

Lemma check_rate_limit_raises {B} (r : Response B) :
  headers_wellformed r = false ->
  ∃ t e, check_rate_limit r = (t, Exc e) ∧ (e = ValueError ∨ e = OverflowError).
Proof.
  unfold headers_wellformed. crl_unfold.
  destruct (headers r !! "x-rate-limit-remaining") as [s1|]; simpl; [|discriminate].
  destruct (parse_int s1) as [remain|]; simpl; [|eauto 6].
  destruct (remain <=? RATE_LIMIT_BUFFER); simpl; [|discriminate].
  destruct (headers r !! "date") as [s2|]; simpl; [|discriminate].
  destruct (times_parse s2) as [d|]; simpl; [|eauto 6].
  destruct (headers r !! "x-rate-limit-reset") as [s3|]; simpl; [|discriminate].
  destruct (parse_int s3) as [reset|]; simpl; [|eauto 6].
  intros H. sleep_cases; [eauto 6 | eauto 6 | apply sleep_rejects_None in Es; lia].
Qed.

(** The coordinator never ends in [SystemExit] or [Pending], and never
    lets a [KeyError] out. *)
Lemma check_rate_limit_outcome {B} (r : Response B) :
  outcome (check_rate_limit r) = Val tt ∨
  outcome (check_rate_limit r) = Exc ValueError ∨
  outcome (check_rate_limit r) = Exc OverflowError.
Proof.
  destruct (headers_wellformed r) eqn:E.
  - apply check_rate_limit_completes in E as [t ->]. by left.
  - apply check_rate_limit_raises in E as (t & e & -> & [-> | ->]); auto.
Qed.

(** The coordinator issues no request. *)
Lemma check_rate_limit_no_request {B} (r : Response B) :
  requests (trace (check_rate_limit r)) = [].
Proof.
  crl_unfold.
  destruct (headers r !! "x-rate-limit-remaining") as [s1|]; simpl; [|done].
  destruct (parse_int s1) as [remain|]; simpl; [|done].
  destruct (remain <=? RATE_LIMIT_BUFFER); simpl; [|done].
  destruct (headers r !! "date") as [s2|]; simpl; [|done].
  destruct (times_parse s2) as [d|]; simpl; [|done].
  destruct (headers r !! "x-rate-limit-reset") as [s3|]; simpl; [|done].
  destruct (parse_int s3) as [reset|]; simpl; [|done].
  sleep_cases; done.
Qed.

(** ** The monad *)

Lemma bind_assoc {A C D} (m : M A) (f : A -> M C) (g : C -> M D) :
  bind (bind m f) g = bind m (fun a => bind (f a) g).
Proof.
  destruct m as [t [a| |]]; simpl; try reflexivity.
  destruct (f a) as [t1 [c| |]]; simpl; try reflexivity.
  destruct (g c) as [t2 r2]. by rewrite app_assoc.
Qed.

Lemma bind_ret_l {A C} (a : A) (f : A -> M C) : bind (ret a) f = f a.
Proof. unfold bind, ret. by destruct (f a). Qed.

Lemma bind_val {A C} (t : list event) (a : A) (f : A -> M C) :
  bind (t, Val a) f = (t ++ trace (f a), outcome (f a)).
Proof. unfold bind, trace, outcome. by destruct (f a). Qed.

Lemma outcome_bind {A C} (m : M A) (f : A -> M C) :
  outcome (bind m f) =
    match outcome m with
    | Val a => outcome (f a)
    | Exc e => Exc e
    | Pending => Pending
    end.
Proof.
  destruct m as [t [a| |]]; unfold outcome; simpl; try reflexivity.
  by destruct (f a).
Qed.

Lemma outcome_emit {C} (ev : event) (f : unit -> M C) :
  outcome (bind (emit ev) f) = outcome (f tt).
Proof. by rewrite outcome_bind. Qed.

Lemma trace_bind {A C} (m : M A) (f : A -> M C) :
  trace (bind m f) =
    trace m ++ match outcome m with Val a => trace (f a) | _ => [] end.
Proof.
  destruct m as [t [a| |]]; unfold trace, outcome; simpl;
    try (by rewrite app_nil_r).
  by destruct (f a).
Qed.

Lemma bind_Val_inv {A C} (m : M A) (f : A -> M C) (t : list event) (c : C) :
  bind m f = (t, Val c) ->
  ∃ t1 a t2, m = (t1, Val a) ∧ f a = (t2, Val c) ∧ t = t1 ++ t2.
Proof.
  destruct m as [t1 [a| |]]; simpl; try discriminate.
  destruct (f a) as [t2 r2] eqn:E. intros [= <- ->]. eauto 6.
Qed.

Lemma bind_ext {A C} (m : M A) (f g : A -> M C) :
  (∀ a, f a = g a) -> bind m f = bind m g.
Proof. intros H. destruct m as [t [a| |]]; simpl; try reflexivity. by rewrite H. Qed.

(** ** The retry loop *)

Section LoopFacts.
Context {S B A : Type}.
Variable tries_of : S -> Z.
Variable request_of : S -> event.
Variable body : S -> Response B -> M (step S A).

Local Abbreviation loop := (retry_loop tries_of request_of body).
Local Abbreviation iter := (retry_iter tries_of request_of body).
Local Abbreviation after := (after tries_of request_of body).

Lemma retry_loop_exhausted st script :
  MAX_RETRY <= tries_of st -> loop st script = exhausted.
Proof.
  intros H. destruct script; simpl;
    destruct (tries_of st <? MAX_RETRY) eqn:E; try lia; reflexivity.
Qed.

Lemma retry_loop_nil st :
  tries_of st < MAX_RETRY -> loop st [] = ([request_of st], Pending).
Proof.
  intros H. simpl. destruct (tries_of st <? MAX_RETRY) eqn:E; [reflexivity | lia].
Qed.

Lemma retry_loop_cons st r script :
  tries_of st < MAX_RETRY ->
  loop st (r :: script) =
    (emit (request_of st);; x <- body st r;; after script x).
Proof.
  intros H. simpl. destruct (tries_of st <? MAX_RETRY) eqn:E; [reflexivity | lia].
Qed.

Lemma retry_iter_cons st r pre :
  tries_of st < MAX_RETRY ->
  iter st (r :: pre) =
    (emit (request_of st);; x <- body st r;;
     match x with
     | Continue st' => iter st' pre
     | Return a => ret (Return a)
     end).
Proof.
  intros H. simpl. destruct (tries_of st <? MAX_RETRY) eqn:E; [reflexivity | lia].
Qed.

(** Running the loop over [pre ++ script] is running it over [pre],
    then going on over [script] from where that stands. *)
Lemma retry_loop_app pre : ∀ st script,
  loop st (pre ++ script) = (x <- iter st pre;; after script x).
Proof.
  induction pre as [|r pre IH]; intros st script.
  - simpl app. simpl retry_iter. by rewrite bind_ret_l.
  - destruct (Z.ltb_spec (tries_of st) MAX_RETRY) as [Hlt | Hge].
    + simpl app. rewrite retry_loop_cons, retry_iter_cons by done.
      rewrite !bind_assoc. apply bind_ext; intros _.
      apply bind_ext; intros [st'|a]; simpl after.
      * apply IH.
      * by rewrite bind_ret_l.
    + rewrite retry_loop_exhausted by done.
      simpl. destruct (tries_of st <? MAX_RETRY) eqn:E; [lia | reflexivity].
Qed.

(** When every pass over a good response ends normally and keeps an
    invariant of the loop variables, the only exception that leaves the
    loop is the [SystemExit] of exhaustion. *)
Variable good : Response B -> Prop.
Variable Inv : S -> Prop.
Hypothesis body_ends : ∀ st r, Inv st -> good r ->
  ∃ t x, body st r = (t, Val x) ∧
         match x with Continue st' => Inv st' | Return _ => True end.

End LoopFacts.

(** ** Accumulating pages *)

Lemma page_ids_nil : page_ids [] = ∅.
Proof. reflexivity. Qed.

Lemma page_ids_cons tw l : page_ids (tw :: l) = {[tweet_id tw]} ∪ page_ids l.
Proof. reflexivity. Qed.

Lemma page_ids_app l1 l2 : page_ids (l1 ++ l2) = page_ids l1 ∪ page_ids l2.
Proof. unfold page_ids. rewrite fmap_app. apply list_to_set_app_L. Qed.

Lemma elem_of_page_ids x l : x ∈ page_ids l ↔ ∃ tw, tw ∈ l ∧ tweet_id tw = x.
Proof.
  unfold page_ids. rewrite elem_of_list_to_set, list_elem_of_fmap.
  split; intros (tw & H1 & H2); eauto.
Qed.

Lemma add_page_cons acc tw l : add_page acc (tw :: l) = add_page (add_tweet acc tw) l.
Proof. reflexivity. Qed.

Lemma add_page_app acc l1 l2 : add_page acc (l1 ++ l2) = add_page (add_page acc l1) l2.
Proof. unfold add_page. apply fold_left_app. Qed.

(** The id set after a page: the ids before and the ids of the page. *)
Lemma add_page_ids l : ∀ acc, (add_page acc l).2 = acc.2 ∪ page_ids l.
Proof.
  induction l as [|tw l IH]; intros acc.
  - simpl. rewrite page_ids_nil. set_solver.
  - rewrite add_page_cons, IH, page_ids_cons. unfold add_tweet.
    case_decide; simpl; set_solver.
Qed.

(** A page whose ids have all been seen changes nothing. *)
Lemma add_page_seen l : ∀ acc, page_ids l ⊆ acc.2 -> add_page acc l = acc.
Proof.
  induction l as [|tw l IH]; intros acc Hsub; [done|].
  rewrite page_ids_cons in Hsub. rewrite add_page_cons. unfold add_tweet.
  case_decide as Hin; [apply IH | exfalso]; set_solver.
Qed.

Lemma first_seen_filter (P : Z -> Prop) `{!∀ x, Decision (P x)} l :
  first_seen (filter (λ u, P (tweet_id u)) l)
  = filter (λ u, P (tweet_id u)) (first_seen l).
Proof.
  induction l as [|tw l IH]; [done|].
  simpl first_seen. rewrite !filter_cons. case_decide as HP.
  - simpl first_seen. rewrite IH, !list_filter_filter.
    f_equal. apply list_filter_iff. tauto.
  - rewrite IH, list_filter_filter. apply list_filter_iff.
    intros u. split; [|tauto]. intros Hu. split; [done|]. congruence.
Qed.

(** The list after a page: the list before, then the records of the page
    with a new id, each once, in page order. *)
Lemma add_page_tweets l : ∀ tws (X : gset Z),
  (add_page (tws, X) l).1 = tws ++ first_seen (filter (λ u, tweet_id u ∉ X) l).
Proof.
  induction l as [|tw l IH]; intros tws X.
  - simpl. by rewrite app_nil_r.
  - rewrite add_page_cons, filter_cons. unfold add_tweet. simpl.
    destruct (decide (tweet_id tw ∈ X)) as [Hin|Hout].
    + rewrite decide_False by tauto. apply IH.
    + rewrite decide_True by done. rewrite IH. simpl first_seen.
      rewrite <- app_assoc. simpl. do 2 f_equal.
      pose proof (first_seen_filter (λ x, x ≠ tweet_id tw)
                    (filter (λ u, tweet_id u ∉ X) l)) as E.
      simpl in E. rewrite <- E, list_filter_filter.
      f_equal. apply list_filter_iff. intros u. set_solver.
Qed.

Lemma add_page_first_seen l : (add_page ([], ∅) l).1 = first_seen l.
Proof.
  rewrite add_page_tweets. simpl. f_equal.
  induction l as [|tw l IH]; [done|].
  rewrite filter_cons_True by set_solver. by rewrite IH.
Qed.

Lemma first_seen_sublist l : first_seen l `sublist_of` l.
Proof.
  induction l as [|tw l IH]; [done|]. simpl.
  apply sublist_skip. etrans; [apply sublist_filter | done].
Qed.

Lemma first_seen_ids l : page_ids (first_seen l) = page_ids l.
Proof.
  induction l as [|tw l IH]; [done|]. simpl first_seen.
  rewrite !page_ids_cons, <- IH. apply set_eq. intros x.
  rewrite !elem_of_union, !elem_of_singleton, !elem_of_page_ids.
  setoid_rewrite list_elem_of_filter.
  destruct (decide (x = tweet_id tw)); naive_solver.
Qed.

Lemma first_seen_NoDup l : NoDup (tweet_id <$> first_seen l).
Proof.
  induction l as [|tw l IH]; [constructor|]. simpl first_seen.
  rewrite fmap_cons. apply NoDup_cons. split.
  - rewrite list_elem_of_fmap. intros (u & Hu & Hin).
    apply list_elem_of_filter in Hin as [Hne _]. congruence.
  - eapply sublist_NoDup; [exact IH|].
    apply fmap_sublist, sublist_filter.
Qed.

(** Records whose ids have all been seen do not show in [first_seen]. *)
Lemma first_seen_app_seen l l' :
  page_ids l' ⊆ page_ids l -> first_seen (l ++ l') = first_seen l.
Proof.
  intros Hsub. rewrite <- !add_page_first_seen, add_page_app.
  rewrite add_page_seen; [done|]. rewrite add_page_ids. set_solver.
Qed.

(** ** One pass of [user_timeline] *)

Lemma foldr_min_spec (l : list Z) : ∀ x,
  foldr Z.min x l ∈ x :: l ∧ ∀ y, y ∈ x :: l -> foldr Z.min x l <= y.
Proof.
  induction l as [|z l IH]; intros x; simpl.
  - split; [left|]. intros y Hy. apply list_elem_of_singleton in Hy. lia.
  - destruct (IH x) as [Hin Hle]. split.
    + destruct (Z.min_spec z (foldr Z.min x l)) as [[_ ->] | [_ ->]].
      * right. left.
      * apply elem_of_cons in Hin as [-> | Hin]; [left | right; by right].
    + intros y Hy.
      assert (y = z ∨ y ∈ x :: l) as [-> | Hy'].
      { apply elem_of_cons in Hy as [-> | Hy]; [right; left|].
        apply elem_of_cons in Hy as [-> | Hy]; [by left | right; by right]. }
      * lia.
      * specialize (Hle y Hy'). lia.
Qed.

(** [min(ids)] of a set that is not empty: its least element. *)
Lemma py_min_spec (X : gset Z) :
  X ≠ ∅ -> ∃ m, py_min X = ret m ∧ m ∈ X ∧ ∀ x, x ∈ X -> m <= x.
Proof.
  intros Hne. unfold py_min. destruct (elements X) as [|x l] eqn:E.
  - apply elements_empty_inv in E. apply leibniz_equiv in E. done.
  - destruct (foldr_min_spec l x) as [Hin Hle]. rewrite <- E in Hin, Hle.
    exists (foldr Z.min x l). split; [done|]. split.
    + by apply elem_of_elements.
    + intros y Hy. apply Hle. by apply elem_of_elements.
Qed.

Lemma tl_body_200_done st (r : Response (list tweet)) :
  status_code r = 200 -> tcount st = size (ids st) ->
  page_ids (json r) ⊆ ids st ->
  user_timeline_body st r = ret (Return (tweets st)).
Proof.
  intros Hs Hc Hsub. unfold user_timeline_body. rewrite Hs. simpl.
  rewrite add_page_seen by done. simpl. by rewrite decide_True.
Qed.

Lemma tl_body_200_more st (r : Response (list tweet)) :
  status_code r = 200 -> tcount st = size (ids st) ->
  ¬ page_ids (json r) ⊆ ids st ->
  ∃ m, user_timeline_body st r =
         (check_rate_limit r;;
          ret (Continue
                 {| tweets := (add_page (tweets st, ids st) (json r)).1;
                    ids := (add_page (tweets st, ids st) (json r)).2;
                    tcount := size (add_page (tweets st, ids st) (json r)).2;
                    max_id := Some m; tries := 0 |}))
       ∧ m ∈ ids st ∪ page_ids (json r)
       ∧ ∀ x, x ∈ ids st ∪ page_ids (json r) -> m <= x.
Proof.
  intros Hs Hc Hnew. unfold user_timeline_body. rewrite Hs. simpl.
  pose proof (add_page_ids (json r) (tweets st, ids st)) as Hids. simpl in Hids.
  assert (size (ids st) < size (ids st ∪ page_ids (json r)))%nat as Hlt.
  { apply subset_size. set_solver. }
  rewrite decide_False by (rewrite Hids; lia).
  destruct (py_min_spec (ids st ∪ page_ids (json r))) as (m & Hm & Hin & Hle).
  { intros E. rewrite E, size_empty in Hlt. lia. }
  exists m. rewrite Hids, Hm, bind_ret_l. done.
Qed.

Lemma not_found3_not_retried code :
  not_found3 code = true -> (code =? 200) = false ∧ (code =? 400) = false.
Proof. unfold not_found3. lia. Qed.

Lemma tl_body_not_found st (r : Response (list tweet)) :
  not_found3 (status_code r) = true ->
  user_timeline_body st r =
    (log LInfo "Try {}: User doesn't exist - {} {}";;
     check_rate_limit r;;
     ret (Return (tweets st))).
Proof.
  intros H. unfold user_timeline_body.
  destruct (not_found3_not_retried _ H) as [-> ->]. by rewrite H.
Qed.

Lemma tl_body_retry st (r : Response (list tweet)) :
  status_code r ≠ 200 -> not_found3 (status_code r) = false ->
  user_timeline_body st r =
    (retry_log (status_code r);;
     check_rate_limit r;;
     ret (Continue (tl_retry st))).
Proof.
  intros Hs H. unfold user_timeline_body, retry_log.
  destruct (status_code r =? 200) eqn:E; [lia|].
  destruct (status_code r =? 400); [done|]. by rewrite H.
Qed.

Lemma bodies_app rs1 rs2 : bodies (rs1 ++ rs2) = bodies rs1 ++ bodies rs2.
Proof. unfold bodies. by rewrite filter_app, fmap_app, concat_app. Qed.

Lemma bodies_one_200 (r : Response (list tweet)) :
  status_code r = 200 -> bodies [r] = json r.
Proof.
  intros H. unfold bodies. rewrite filter_cons_True by done. simpl.
  apply app_nil_r.
Qed.

Lemma bodies_one_other (r : Response (list tweet)) :
  status_code r ≠ 200 -> bodies [r] = [].
Proof. intros H. unfold bodies. by rewrite filter_cons_False. Qed.

Lemma bodies_all_200 rs :
  Forall (λ r, status_code r = 200) rs -> bodies rs = concat (json <$> rs).
Proof.
  induction 1 as [|r rs Hr _ IH]; [done|].
  change (r :: rs) with ([r] ++ rs). rewrite bodies_app, bodies_one_200, IH by done.
  reflexivity.
Qed.

(** A pass that continues keeps [tl_inv]: the page of a 200 joins what
    has been seen, and nothing else changes but [tries]. *)
Lemma tl_body_inv seen st (r : Response (list tweet)) t st' :
  tl_inv seen st ->
  user_timeline_body st r = (t, Val (Continue st')) ->
  tl_inv (seen ++ bodies [r]) st'.
Proof.
  intros [Hacc Hc] Hb.
  destruct (decide (status_code r = 200)) as [Hs | Hs].
  - destruct (decide (page_ids (json r) ⊆ ids st)) as [Hsub | Hnew].
    + rewrite tl_body_200_done in Hb by done. discriminate.
    + destruct (tl_body_200_more st r Hs Hc Hnew) as (m & Hm & _).
      rewrite Hm in Hb. apply bind_Val_inv in Hb as (t1 & [] & t2 & _ & Hret & _).
      injection Hret as _ <-. unfold tl_inv. simpl.
      rewrite bodies_one_200, add_page_app, <- Hacc by done.
      split; [|done]. by destruct (add_page (tweets st, ids st) (json r)).
  - rewrite bodies_one_other, app_nil_r by done.
    destruct (not_found3 (status_code r)) eqn:Hnf.
    + rewrite tl_body_not_found in Hb by done.
      apply bind_Val_inv in Hb as (? & [] & ? & _ & Hb & _).
      apply bind_Val_inv in Hb as (? & [] & ? & _ & Hb & _). discriminate.
    + rewrite tl_body_retry in Hb by done.
      apply bind_Val_inv in Hb as (? & [] & ? & _ & Hb & _).
      apply bind_Val_inv in Hb as (? & [] & ? & _ & Hb & _).
      injection Hb as _ <-. done.
Qed.

(** The same over a run of responses. *)
Lemma tl_iter_inv pre : ∀ seen st t st',
  tl_inv seen st ->
  user_timeline_iter st pre = (t, Val (Continue st')) ->
  tl_inv (seen ++ bodies pre) st'.
Proof.
  unfold user_timeline_iter.
  induction pre as [|r pre IH]; intros seen st t st' Hinv Hit.
  - simpl in Hit. injection Hit as _ <-. by rewrite app_nil_r.
  - destruct (Z.ltb_spec (tries st) MAX_RETRY) as [Hlt | Hge].
    + rewrite retry_iter_cons in Hit by done.
      apply bind_Val_inv in Hit as (? & [] & ? & _ & Hit & _).
      apply bind_Val_inv in Hit as (t1 & nxt & t2 & Hb & Hit & _).
      destruct nxt as [st1|a]; [|discriminate].
      change (r :: pre) with ([r] ++ pre). rewrite bodies_app, app_assoc.
      eapply IH; [|exact Hit]. by eapply tl_body_inv.
    + simpl in Hit. destruct (tries st <? MAX_RETRY) eqn:E; [lia | discriminate].
Qed.

(** * The claims about the coordinator *)

Lemma sleeps_app t1 t2 : sleeps (t1 ++ t2) = sleeps t1 ++ sleeps t2.
Proof. apply omap_app. Qed.

Lemma logs_app t1 t2 : logs (t1 ++ t2) = logs t1 ++ logs t2.
Proof. apply omap_app. Qed.

(** C10. When the remaining-calls header reads as a number above the
    low-water mark (5), [check_rate_limit] looks up that header and does
    nothing else: no sleep, no log, no lookup of the date or reset-time
    headers.  Taking those two headers out of the response changes
    nothing: their absence brings no backoff and no error report. *)
Theorem check_rate_limit_above_low_water_mark {B} (r : Response B) (remain : Z) :
  remaining_of r = Some remain -> RATE_LIMIT_BUFFER < remain ->
  check_rate_limit r = ([EHeader "x-rate-limit-remaining"], Val tt)
  ∧ sleeps (trace (check_rate_limit r)) = []
  ∧ logs (trace (check_rate_limit r)) = []
  ∧ header_reads (trace (check_rate_limit r)) = ["x-rate-limit-remaining"]
  ∧ check_rate_limit (without_date_and_reset r) = check_rate_limit r.
Proof.
  intros Hr Hlt.
  assert (remaining_of (without_date_and_reset r) = Some remain) as Hr'.
  { unfold remaining_of, without_date_and_reset in *. simpl.
    by rewrite !lookup_delete_ne. }
  rewrite (check_rate_limit_high _ _ Hr' Hlt).
  rewrite (check_rate_limit_high _ _ Hr Hlt). done.
Qed.


(** C6 (amended). When a header that [check_rate_limit] gets to look up
    is not in the response - the remaining-calls header; or the date
    header, once the remaining calls read as a number at or under the
    low-water mark; or the reset header, once the date has been read
    too - the coordinator logs the error, sleeps once, for
    FAILURE_RETRY (60) seconds, and returns normally.  The backoff is the
    same at every value of the caller's retry counter, and the counter
    moves as it does for any response of that status. *)
Theorem check_rate_limit_missing_header {B} (r : Response B) :
  required_header_absent r ->
  outcome (check_rate_limit r) = Val tt
  ∧ sleeps (trace (check_rate_limit r)) = [FAILURE_RETRY]
  ∧ (LError, "Header not found - {}") ∈ logs (trace (check_rate_limit r))
  ∧ ∀ tries : Z,
      sleeps (trace (users_show_body tries r)) = [FAILURE_RETRY]
      ∧ ∀ tries', outcome (users_show_body tries r) = Val (Continue tries') ->
                  tries' = tries + 1.
Proof.
  intros Habs.
  destruct (check_rate_limit_absent r Habs) as (t & Hc & Hsl & Hlg).
  rewrite Hc. unfold outcome, trace. simpl.
  split; [done|]. split; [by rewrite sleeps_app, Hsl|].
  split; [rewrite logs_app; apply elem_of_app; right; simpl; left|].
  intros tries. unfold users_show_body.
  destruct (status_code r =? 200), (not_found2 (status_code r)),
    (status_code r =? 400); simpl;
    rewrite Hc; unfold log, emit; rewrite ?bind_val; simpl;
    rewrite ?sleeps_app, ?Hsl; simpl; (split; [done|]);
    intros tries' [=]; done.
Qed.


(** * The claims about user_timeline *)

Lemma tl_inv_init : tl_inv [] tl_init.
Proof. split; reflexivity. Qed.

Lemma tl_inv_tweets seen st :
  tl_inv seen st -> tweets st = first_seen seen ∧ ids st = page_ids seen.
Proof.
  intros [Hacc _]. split.
  - rewrite <- add_page_first_seen, <- Hacc. done.
  - replace (ids st) with (add_page ([], ∅) seen).2 by (by rewrite <- Hacc).
    rewrite add_page_ids. simpl. set_solver.
Qed.

(** After the responses [pre] the run goes on from the state they left. *)
Lemma tl_run_split pre t st script :
  user_timeline_iter tl_init pre = (t, Val (Continue st)) ->
  user_timeline (pre ++ script) = ((t, Val tt);; user_timeline_loop st script).
Proof.
  intros Hit. unfold user_timeline, user_timeline_loop.
  rewrite retry_loop_app. unfold user_timeline_iter in Hit. rewrite Hit.
  by rewrite !bind_val.
Qed.

Lemma tl_reached pre t st :
  user_timeline_iter tl_init pre = (t, Val (Continue st)) ->
  tl_inv (bodies pre) st.
Proof. intros Hit. by apply (tl_iter_inv pre [] tl_init t st tl_inv_init). Qed.

(** C3. When the loop is still running after the responses [pre] and the
    next response is a 200 whose ids have all been seen, [user_timeline]
    returns the accumulated list right after that request: the trace
    ends with the request for that page (no header lookup, no sleep, no
    further request), and the responses that might follow are not asked
    for. *)
Theorem user_timeline_stops_without_new_ids pre t st (r : Response (list tweet)) rest :
  user_timeline_iter tl_init pre = (t, Val (Continue st)) ->
  tries st < MAX_RETRY ->
  status_code r = 200 ->
  page_ids (json r) ⊆ page_ids (bodies pre) ->
  user_timeline (pre ++ r :: rest)
    = (t ++ [EGet timeline_url (max_id st)], Val (tweets st))
  ∧ tweets st = first_seen (bodies pre).
Proof.
  intros Hit Hlt Hs Hsub.
  pose proof (tl_reached _ _ _ Hit) as Hinv.
  destruct (tl_inv_tweets _ _ Hinv) as [Htw Hids].
  split; [|done].
  rewrite (tl_run_split _ _ _ _ Hit). unfold user_timeline_loop.
  rewrite retry_loop_cons by done.
  rewrite tl_body_200_done; [done | done | apply Hinv | by rewrite Hids].
Qed.

(** C7 (amended). When the loop is still running after the responses
    [pre] and the next response has status 401, 403 or 404,
    [user_timeline] logs it, runs the coordinator on that response and
    then returns the records accumulated so far (none when no page has
    arrived).  Whenever the coordinator completes on that response - as
    it does on well-formed rate-limit headers - the result is that
    list, as a normal return. *)
Theorem user_timeline_not_found pre t st (r : Response (list tweet)) rest :
  user_timeline_iter tl_init pre = (t, Val (Continue st)) ->
  tries st < MAX_RETRY ->
  not_found3 (status_code r) = true ->
  user_timeline (pre ++ r :: rest)
    = ((t, Val tt);;
       emit (EGet timeline_url (max_id st));;
       log LInfo "Try {}: User doesn't exist - {} {}";;
       check_rate_limit r;;
       ret (tweets st))
  ∧ (∀ t', check_rate_limit r = (t', Val tt) ->
       outcome (user_timeline (pre ++ r :: rest)) = Val (tweets st))
  ∧ (headers_wellformed r = true ->
       outcome (user_timeline (pre ++ r :: rest)) = Val (first_seen (bodies pre)))
  ∧ tweets st = first_seen (bodies pre)
  ∧ (bodies pre = [] -> tweets st = []).
Proof.
  intros Hit Hlt Hs.
  pose proof (tl_reached _ _ _ Hit) as Hinv.
  destruct (tl_inv_tweets _ _ Hinv) as [Htw _].
  assert (user_timeline (pre ++ r :: rest)
    = ((t, Val tt);;
       emit (EGet timeline_url (max_id st));;
       log LInfo "Try {}: User doesn't exist - {} {}";;
       check_rate_limit r;;
       ret (tweets st))) as Heq.
  { rewrite (tl_run_split _ _ _ _ Hit). unfold user_timeline_loop.
    rewrite retry_loop_cons by done. rewrite tl_body_not_found by done.
    apply bind_ext; intros _. apply bind_ext; intros _.
    rewrite !bind_assoc. apply bind_ext; intros _.
    apply bind_ext; intros _. by rewrite bind_ret_l. }
  split; [done|]. split; [|split; [|split; [done|]]].
  - intros t' Hc. rewrite Heq, Hc. reflexivity.
  - intros Hwf. destruct (check_rate_limit_completes r Hwf) as [t' Hc].
    rewrite Heq, Hc, <- Htw. reflexivity.
  - intros Hb. by rewrite Htw, Hb.
Qed.

(** The pages of a progressing run, then a page that brings nothing. *)
Lemma tl_paging pages : ∀ seen st (last : Response (list tweet)) rest,
  tl_inv seen st -> tries st < MAX_RETRY ->
  Forall (λ r, status_code r = 200) pages ->
  progressing (ids st) pages ->
  status_code last = 200 ->
  page_ids (json last) ⊆ ids st ∪ page_ids (concat (json <$> pages)) ->
  outcome (user_timeline_loop st (pages ++ last :: rest))
  = outcome (check_all pages;; ret (first_seen (seen ++ concat (json <$> pages)))).
Proof.
  unfold user_timeline_loop.
  induction pages as [|r pages IH]; intros seen st last rest Hinv Hlt H200 Hprog Hs Hsub.
  - simpl app. rewrite retry_loop_cons by done.
    rewrite tl_body_200_done; [| done | apply Hinv | set_solver].
    destruct (tl_inv_tweets _ _ Hinv) as [-> _]. simpl. by rewrite app_nil_r.
  - inversion H200 as [|? ? Hr H200']; subst. destruct Hprog as [Hnew Hprog].
    simpl app. rewrite retry_loop_cons by done.
    destruct (tl_body_200_more st r Hr (proj2 Hinv) Hnew) as (m & Hb & _).
    rewrite Hb. clear Hb.
    set (st1 := {| tweets := _; ids := _; tcount := _; max_id := Some m; tries := 0 |}).
    assert (tl_inv (seen ++ json r) st1) as Hinv1.
    { destruct Hinv as [Hacc _]. split; [|done]. simpl.
      rewrite add_page_app, <- Hacc.
      by destruct (add_page (tweets st, ids st) (json r)). }
    assert (ids st1 = ids st ∪ page_ids (json r)) as Hids1.
    { simpl. by rewrite add_page_ids. }
    specialize (IH (seen ++ json r) st1 last rest Hinv1).
    rewrite Hids1, <- app_assoc in IH.
    change (check_all (r :: pages)) with (check_rate_limit r;; check_all pages).
    change (concat (json <$> r :: pages)) with (json r ++ concat (json <$> pages)) in *.
    rewrite outcome_emit, !bind_assoc, !outcome_bind.
    destruct (outcome (check_rate_limit r)) as [[]| |]; try reflexivity.
    rewrite outcome_bind in IH. apply IH; try done.
    rewrite page_ids_app in Hsub. set_solver.
Qed.

(** C2 (amended). For successful (200) pages that each bring at least
    one new id and on each of which the coordinator completes - as it
    does on well-formed rate-limit headers - followed by a 200 page that
    brings no new id, [user_timeline] returns the records of all the
    pages, each id once, in the order they are first seen.  Without the
    condition on the headers, the outcome is that of the coordinator
    calls on the pages followed by this return. *)
Theorem user_timeline_collects_pages
    (pages : list (Response (list tweet))) (last : Response (list tweet)) rest :
  Forall (λ r, status_code r = 200) pages ->
  progressing ∅ pages ->
  status_code last = 200 ->
  page_ids (json last) ⊆ page_ids (concat (json <$> pages)) ->
  let all := concat (json <$> (pages ++ [last])) in
  outcome (user_timeline (pages ++ last :: rest))
    = outcome (check_all pages;; ret (first_seen all))
  ∧ (Forall (λ r, headers_wellformed r = true) pages ->
     outcome (user_timeline (pages ++ last :: rest)) = Val (first_seen all))
  ∧ NoDup (tweet_id <$> first_seen all)
  ∧ page_ids (first_seen all) = page_ids all
  ∧ first_seen all `sublist_of` all.
Proof.
  intros H200 Hprog Hs Hsub all.
  assert (first_seen all = first_seen (concat (json <$> pages))) as Hall.
  { unfold all. rewrite fmap_app, concat_app. simpl. rewrite app_nil_r.
    by apply first_seen_app_seen. }
  assert (outcome (user_timeline (pages ++ last :: rest))
          = outcome (check_all pages;; ret (first_seen all))) as Hout.
  { rewrite Hall. unfold user_timeline.
    rewrite (tl_paging pages [] tl_init last rest tl_inv_init);
      first [done | simpl; set_solver]. }
  split; [done|]. split; [|split; [|split]].
  - intros Hwf. rewrite Hout, outcome_bind.
    replace (outcome (check_all pages)) with (Val (A:=unit) tt); [done|].
    clear -Hwf. induction Hwf as [|r ps Hr _ IH]; [done|].
    change (check_all (r :: ps)) with (check_rate_limit r;; check_all ps).
    apply check_rate_limit_completes in Hr as [t Hr].
    by rewrite outcome_bind, Hr.
  - apply first_seen_NoDup.
  - apply first_seen_ids.
  - apply first_seen_sublist.
Qed.

(** * The claims about the lookups *)

Lemma requests_app t1 t2 : requests (t1 ++ t2) = requests t1 ++ requests t2.
Proof. apply omap_app. Qed.

Lemma retry_log_trace code :
  outcome (retry_log code) = Val tt ∧ requests (trace (retry_log code)) = [].
Proof. unfold retry_log. by destruct (code =? 400). Qed.

Lemma retried_cases code :
  retried code = true ->
  (code =? 200) = false ∧ not_found2 code = false.
Proof.
  unfold retried. intros H. apply negb_true_iff, orb_false_iff in H. done.
Qed.

Lemma users_lookup_body_retry {P} tries (r : Response (list P)) :
  retried (status_code r) = true ->
  users_lookup_body tries r =
    (retry_log (status_code r);; check_rate_limit r;; ret (Continue (tries + 1))).
Proof.
  intros H. destruct (retried_cases _ H) as [H2 Hnf].
  unfold users_lookup_body, retry_log. rewrite H2, Hnf.
  by destruct (status_code r =? 400).
Qed.

Lemma users_show_body_retry {J} tries (r : Response J) :
  retried (status_code r) = true ->
  users_show_body tries r =
    (retry_log (status_code r);; check_rate_limit r;; ret (Continue (tries + 1))).
Proof.
  intros H. destruct (retried_cases _ H) as [H2 Hnf].
  unfold users_show_body, retry_log. rewrite H2, Hnf.
  by destruct (status_code r =? 400).
Qed.

(** A run of retried responses only counts: [tries] goes up by one per
    response, with one request each. *)
Lemma users_lookup_retries {P} (script : list (Response (list P))) : ∀ tries,
  Forall (λ r, retried (status_code r) = true ∧ headers_wellformed r = true) script ->
  tries + Z.of_nat (length script) <= MAX_RETRY ->
  let run := retry_iter (λ tries, tries) (λ _, EGet lookup_url None)
               users_lookup_body tries script in
  outcome run = Val (Continue (tries + Z.of_nat (length script)))
  ∧ length (requests (trace run)) = length script.
Proof.
  induction script as [|r script IH]; intros tries Hall Hle run; subst run.
  - simpl. split; [|done]. unfold outcome. simpl. do 2 f_equal. lia.
  - inversion Hall as [|? ? [Hr Hwf] Hall']; subst.
    change (length (r :: script)) with (Datatypes.S (length script)) in *.
    rewrite retry_iter_cons by lia.
    rewrite users_lookup_body_retry by done.
    destruct (check_rate_limit_completes r Hwf) as [tc Hc].
    pose proof (check_rate_limit_no_request r) as Hnr. rewrite Hc in Hnr.
    destruct (retry_log_trace (status_code r)) as [Hlo Hlr].
    destruct (IH (tries + 1) Hall' ltac:(lia)) as [IHo IHr].
    rewrite !bind_assoc. split.
    + rewrite outcome_emit, outcome_bind, Hlo, outcome_bind, Hc.
      unfold outcome at 1. simpl snd. cbv iota beta. rewrite bind_ret_l, IHo.
      do 2 f_equal. lia.
    + rewrite trace_bind. unfold emit at 1 2. unfold outcome at 1, trace at 1.
      simpl fst. simpl snd. cbv iota beta.
      rewrite trace_bind, Hlo, trace_bind, Hc.
      unfold outcome at 1, trace at 2. simpl fst. simpl snd. cbv iota beta.
      rewrite bind_ret_l, !requests_app, Hlr. unfold trace in Hnr. simpl in Hnr.
      rewrite Hnr. simpl. by rewrite IHr.
Qed.

(** C4 (amended). For [users_lookup], after exactly MAX_RETRY (1440)
    consecutive retried responses - status other than 200, 403 and 404,
    the coordinator completing on each - the operation logs the
    exhaustion and raises [SystemExit], having made exactly MAX_RETRY
    requests; after fewer of them (so also after MAX_RETRY - 1) it has
    made one more request and waits for its response: it is still
    retrying. *)
Theorem users_lookup_retry_ceiling {P} (script : list (Response (list P))) :
  Forall (λ r, retried (status_code r) = true ∧ headers_wellformed r = true) script ->
  (Z.of_nat (length script) = MAX_RETRY ->
     ∀ rest, outcome (users_lookup (script ++ rest)) = Exc SystemExit
             ∧ length (requests (trace (users_lookup (script ++ rest)))) = length script)
  ∧ (Z.of_nat (length script) < MAX_RETRY ->
     outcome (users_lookup script) = Pending
     ∧ length (requests (trace (users_lookup script))) = Datatypes.S (length script)).
Proof.
  intros Hall. split.
  - intros Hlen rest.
    destruct (users_lookup_retries script 0 Hall ltac:(lia)) as [Ho Hr].
    unfold users_lookup, users_lookup_loop. rewrite retry_loop_app. split.
    + rewrite outcome_bind, Ho. simpl after.
      by rewrite retry_loop_exhausted by lia.
    + rewrite trace_bind, Ho. simpl after.
      rewrite retry_loop_exhausted by lia.
      rewrite requests_app, length_app, Hr. simpl. lia.
  - intros Hlen.
    destruct (users_lookup_retries script 0 Hall ltac:(lia)) as [Ho Hr].
    unfold users_lookup, users_lookup_loop.
    rewrite <- (app_nil_r script) at 1 2. rewrite retry_loop_app. split.
    + rewrite outcome_bind, Ho. unfold after.
      by rewrite retry_loop_nil by lia.
    + rewrite trace_bind, Ho. unfold after.
      rewrite retry_loop_nil by lia.
      rewrite requests_app, length_app, Hr. simpl. lia.
Qed.

(** What [users_show] returns comes from a response of status 200, 403
    or 404, whatever the value of [tries] the loop starts from. *)
Lemma users_show_returns {J} (script : list (Response J)) : ∀ tries code (body : J),
  outcome (users_show_loop tries script) = Val (code, body) ->
  (code = 200 ∨ code = 403 ∨ code = 404)
  ∧ ∃ r, r ∈ script ∧ status_code r = code ∧ json r = body.
Proof.
  unfold users_show_loop.
  induction script as [|r script IH]; intros tries code body Hout.
  - simpl in Hout. by destruct (tries <? MAX_RETRY).
  - destruct (Z.ltb_spec tries MAX_RETRY) as [Hlt | Hge].
    2:{ by rewrite retry_loop_exhausted in Hout. }
    rewrite retry_loop_cons, outcome_emit in Hout by done.
    unfold users_show_body in Hout.
    destruct (status_code r =? 200) eqn:E200.
    { rewrite bind_assoc, outcome_bind in Hout.
      destruct (outcome (check_rate_limit r)); try discriminate.
      rewrite bind_ret_l in Hout.
      injection Hout as <- <-. split; [by left|].
      exists r. split; [left | split; [lia | done]]. }
    destruct (not_found2 (status_code r)) eqn:Enf.
    { rewrite bind_assoc, outcome_bind in Hout.
      destruct (outcome (check_rate_limit r)); try discriminate.
      rewrite bind_ret_l in Hout.
      injection Hout as <- <-. split; [unfold not_found2 in Enf; lia|].
      exists r. split; [left | done]. }
    assert (∀ m : M unit, outcome m = Val tt ->
      outcome (x <- (m;; check_rate_limit r;; ret (Continue (tries + 1)));;
               after (λ tries, tries) (λ _, EGet show_url None)
                 users_show_body script x) = Val (code, body) ->
      (code = 200 ∨ code = 403 ∨ code = 404)
      ∧ ∃ r0, r0 ∈ r :: script ∧ status_code r0 = code ∧ json r0 = body) as Hgo.
    { intros m Hm Hout'.
      rewrite !bind_assoc, outcome_bind, Hm, outcome_bind in Hout'.
      destruct (outcome (check_rate_limit r)); try discriminate.
      rewrite bind_ret_l in Hout'. simpl after in Hout'.
      destruct (IH _ _ _ Hout') as [Hc (r0 & Hin & Hr0)].
      split; [done|]. exists r0. split; [by right | done]. }
    destruct (status_code r =? 400); (eapply Hgo; [|exact Hout]); reflexivity.
Qed.

(** C8 (amended). [users_show] returns a pair of a status and a body.
    On a 200 it runs the coordinator and then returns (200, the decoded
    body); on a 403 or 404 it runs the coordinator and then returns
    (that status, the decoded body): it does return that pair whenever
    the coordinator completes on the response.  On any other status
    (400 among them) it logs, runs the coordinator and asks again with
    [tries + 1], so that such a status never reaches the caller:
    whatever [users_show] returns is the status and body of a response
    of status 200, 403 or 404. *)
Theorem users_show_status_passthrough {J} (tries : Z) (r : Response J)
    (rest : list (Response J)) :
  tries < MAX_RETRY ->
  (status_code r = 200 ->
     users_show_loop tries (r :: rest) =
       (emit (EGet show_url None);; check_rate_limit r;; ret (200, json r))
     ∧ (headers_wellformed r = true ->
        outcome (users_show_loop tries (r :: rest)) = Val (200, json r)))
  ∧ (not_found2 (status_code r) = true ->
     users_show_loop tries (r :: rest) =
       (emit (EGet show_url None);; check_rate_limit r;;
        ret (status_code r, json r))
     ∧ (headers_wellformed r = true ->
        outcome (users_show_loop tries (r :: rest))
        = Val (status_code r, json r)))
  ∧ (retried (status_code r) = true ->
     users_show_loop tries (r :: rest) =
       (emit (EGet show_url None);; retry_log (status_code r);;
        check_rate_limit r;; users_show_loop (tries + 1) rest))
  ∧ (∀ script code (body : J),
       outcome (users_show script) = Val (code, body) ->
       (code = 200 ∨ code = 403 ∨ code = 404)
       ∧ ∃ r', r' ∈ script ∧ status_code r' = code ∧ json r' = body).
Proof.
  intros Hlt.
  assert (∀ v : Z * J,
    headers_wellformed r = true ->
    outcome (emit (EGet show_url None);; check_rate_limit r;; ret v) = Val v)
    as Hdone.
  { intros v Hwf. destruct (check_rate_limit_completes r Hwf) as [tc Hc].
    by rewrite outcome_emit, outcome_bind, Hc. }
  unfold users_show_loop.
  split; [|split; [|split]].
  - intros Hs.
    assert (retry_loop (λ tries, tries) (λ _, EGet show_url None)
              users_show_body tries (r :: rest)
            = (emit (EGet show_url None);; check_rate_limit r;; ret (200, json r)))
      as Heq.
    { rewrite retry_loop_cons by done. unfold users_show_body.
      rewrite Hs. simpl Z.eqb. cbv iota.
      apply bind_ext; intros _. rewrite bind_assoc.
      apply bind_ext; intros _. by rewrite bind_ret_l. }
    split; [exact Heq|]. intros Hwf. rewrite Heq. by apply Hdone.
  - intros Hnf.
    assert (retry_loop (λ tries, tries) (λ _, EGet show_url None)
              users_show_body tries (r :: rest)
            = (emit (EGet show_url None);; check_rate_limit r;;
               ret (status_code r, json r))) as Heq.
    { rewrite retry_loop_cons by done. unfold users_show_body.
      rewrite Hnf.
      assert ((status_code r =? 200) = false) as ->
        by (unfold not_found2 in Hnf; lia).
      apply bind_ext; intros _. rewrite bind_assoc.
      apply bind_ext; intros _. by rewrite bind_ret_l. }
    split; [exact Heq|]. intros Hwf. rewrite Heq. by apply Hdone.
  - intros Hre. rewrite retry_loop_cons by done.
    rewrite users_show_body_retry by done.
    apply bind_ext; intros _. rewrite !bind_assoc.
    apply bind_ext; intros _. apply bind_ext; intros _.
    by rewrite bind_ret_l.
  - intros script code body. apply users_show_returns.
Qed.

(** * No exception but the exhaustion *)





(** * Further properties *)

(** ** The coordinator, whatever the response *)

(** X2. [check_rate_limit] calls [sleep] at most once for a response,
    and that call is the last thing it does: no header is looked up and
    nothing is logged after it.  When the coordinator returns, the
    length it slept, if any, is between 0 and [SLEEP_MAX]. *)
Theorem check_rate_limit_sleeps_at_most_once {B} (r : Response B) :
  (length (sleeps (trace (check_rate_limit r))) <= 1)%nat
  ∧ (∀ d, d ∈ sleeps (trace (check_rate_limit r)) ->
       last (trace (check_rate_limit r)) = Some (ESleep d))
  ∧ (outcome (check_rate_limit r) = Val tt ->
     Forall (λ d, 0 <= d <= SLEEP_MAX) (sleeps (trace (check_rate_limit r)))).
Proof.
  crl_unfold. unfold outcome, trace.
  destruct (headers r !! "x-rate-limit-remaining") as [s1|]; simpl;
    [destruct (parse_int s1) as [remain|]; simpl;
     [destruct (remain <=? RATE_LIMIT_BUFFER); simpl;
      [destruct (headers r !! "date") as [s2|]; simpl;
       [destruct (times_parse s2) as [d|]; simpl;
        [destruct (headers r !! "x-rate-limit-reset") as [s3|]; simpl;
         [destruct (parse_int s3) as [reset|]; simpl; [sleep_cases; simpl|]
         |] |] |] |] |] |];
    (split; [lia|]);
    (split;
     [intros d0 Hd;
      first [by apply elem_of_nil in Hd
            | apply list_elem_of_singleton in Hd as ->; reflexivity]|]);
    intros H; first [discriminate H | by constructor | idtac];
    repeat constructor;
    first [apply sleep_rejects_None in Es; lia
          | unfold FAILURE_RETRY, SLEEP_MAX; lia].
Qed.

(** ** Runs of retried responses, in any of the loops *)

Section RetryRuns.
Context {S B A : Type}.
Variable tries_of : S -> Z.
Variable request_of : S -> event.
Variable body : S -> Response B -> M (step S A).
Variable retry : Response B -> Prop.
Variable bump : S -> S.
Variable note : Response B -> M unit.
Hypothesis note_returns : ∀ r, outcome (note r) = Val tt.
Hypothesis bump_tries : ∀ st, tries_of (bump st) = tries_of st + 1.
Hypothesis body_retry : ∀ st r, retry r ->
  body st r = (note r;; check_rate_limit r;; ret (Continue (bump st))).

Local Abbreviation loop := (retry_loop tries_of request_of body).
Local Abbreviation iter := (retry_iter tries_of request_of body).

Lemma iter_bump_tries n st :
  tries_of (Nat.iter n bump st) = tries_of st + Z.of_nat n.
Proof.
  induction n as [|n IH]; simpl; [lia|]. rewrite bump_tries, IH. lia.
Qed.

Lemma iter_bump_shift n st : Nat.iter n bump (bump st) = bump (Nat.iter n bump st).
Proof. induction n as [|n IH]; simpl; [done|]. by rewrite IH. Qed.

(** Each retried response moves the loop variables by [bump]. *)
Lemma retry_run_outcome run : ∀ st,
  Forall (λ r, retry r ∧ headers_wellformed r = true) run ->
  tries_of st + Z.of_nat (length run) <= MAX_RETRY ->
  outcome (iter st run) = Val (Continue (Nat.iter (length run) bump st)).
Proof.
  induction run as [|r run IH]; intros st Hall Hle; [done|].
  inversion Hall as [|? ? [Hr Hwf] Hall']; subst.
  change (length (r :: run)) with (Datatypes.S (length run)) in *.
  rewrite retry_iter_cons by lia. rewrite body_retry by done.
  destruct (check_rate_limit_completes r Hwf) as [tc Hc].
  rewrite !bind_assoc, outcome_emit, outcome_bind, note_returns, outcome_bind, Hc.
  unfold outcome at 1. simpl snd. cbv iota beta. rewrite bind_ret_l.
  rewrite IH; [| done | rewrite bump_tries; lia].
  simpl Nat.iter. by rewrite iter_bump_shift.
Qed.

(** After such a run the loop goes on from the bumped variables. *)
Lemma retry_run_then run st script :
  Forall (λ r, retry r ∧ headers_wellformed r = true) run ->
  tries_of st + Z.of_nat (length run) <= MAX_RETRY ->
  outcome (loop st (run ++ script))
  = outcome (loop (Nat.iter (length run) bump st) script).
Proof.
  intros Hall Hle. rewrite retry_loop_app, outcome_bind.
  by rewrite retry_run_outcome.
Qed.

Lemma retry_run_exhausts run st rest :
  Forall (λ r, retry r ∧ headers_wellformed r = true) run ->
  tries_of st + Z.of_nat (length run) = MAX_RETRY ->
  outcome (loop st (run ++ rest)) = Exc SystemExit.
Proof.
  intros Hall Hlen. rewrite retry_run_then by (done || lia).
  rewrite retry_loop_exhausted; [done|]. rewrite iter_bump_tries. lia.
Qed.

Lemma retry_run_pending run st :
  Forall (λ r, retry r ∧ headers_wellformed r = true) run ->
  tries_of st + Z.of_nat (length run) < MAX_RETRY ->
  outcome (loop st run) = Pending.
Proof.
  intros Hall Hlen. rewrite <- (app_nil_r run) at 1.
  rewrite retry_run_then by (done || lia).
  rewrite retry_loop_nil; [done|]. rewrite iter_bump_tries. lia.
Qed.

Lemma retry_run_answer run st r rest :
  Forall (λ r, retry r ∧ headers_wellformed r = true) run ->
  tries_of st + Z.of_nat (length run) < MAX_RETRY ->
  outcome (loop st (run ++ r :: rest))
  = outcome (x <- body (Nat.iter (length run) bump st) r;;
             after tries_of request_of body rest x).
Proof.
  intros Hall Hlen. rewrite retry_run_then by (done || lia).
  rewrite retry_loop_cons by (rewrite iter_bump_tries; lia).
  by rewrite outcome_emit.
Qed.
End RetryRuns.

(** ** How a loop can end *)

Section LoopOutcomes.
Context {S B A : Type}.
Variable tries_of : S -> Z.
Variable request_of : S -> event.
Variable body : S -> Response B -> M (step S A).
Variable Inv : S -> Prop.
Variable retry : Response B -> Prop.

(** What one pass can do: go on after a retried response with one more
    try, go on with [tries] back at zero, return, or let out the
    exception of the coordinator. *)
Hypothesis body_class : ∀ st r, Inv st ->
  match outcome (body st r) with
  | Val (Continue st') =>
      Inv st' ∧ ((retry r ∧ tries_of st' = tries_of st + 1) ∨ tries_of st' = 0)
  | Val (Return _) => True
  | Exc e => outcome (check_rate_limit r) = Exc e
  | Pending => False
  end.

Local Abbreviation loop := (retry_loop tries_of request_of body).

Lemma loop_step_outcome st r script :
  tries_of st < MAX_RETRY ->
  outcome (loop st (r :: script)) =
    match outcome (body st r) with
    | Val (Continue st') => outcome (loop st' script)
    | Val (Return a) => Val a
    | Exc e => Exc e
    | Pending => Pending
    end.
Proof.
  intros Hlt. rewrite retry_loop_cons, outcome_emit, outcome_bind by done.
  by destruct (outcome (body st r)) as [[st'|a]| |].
Qed.

(** An exception that leaves the loop is the exhaustion, or was raised
    by the coordinator on one of the responses. *)
Lemma loop_exc_provenance script : ∀ st e,
  Inv st -> outcome (loop st script) = Exc e ->
  e = SystemExit ∨ ∃ r, r ∈ script ∧ outcome (check_rate_limit r) = Exc e.
Proof.
  induction script as [|r script IH]; intros st e Hinv Hout.
  - simpl in Hout. destruct (tries_of st <? MAX_RETRY); [discriminate|].
    left. by injection Hout.
  - destruct (Z.ltb_spec (tries_of st) MAX_RETRY) as [Hlt | Hge].
    2:{ rewrite retry_loop_exhausted in Hout by done. left. by injection Hout. }
    rewrite loop_step_outcome in Hout by done.
    pose proof (body_class st r Hinv) as Hc.
    destruct (outcome (body st r)) as [[st'|a]|e'|]; try done.
    + destruct Hc as [Hinv' _].
      destruct (IH st' e Hinv' Hout) as [-> | (r' & Hin & Hr')]; [by left|].
      right. exists r'. split; [by right | done].
    + injection Hout as ->. right. exists r. split; [left | done].
Qed.

(** The exhaustion comes only after MAX_RETRY retried responses in a
    row.  [run0] is the run of retried responses behind the loop when it
    stands in [st]. *)
Lemma loop_exit_needs_run script : ∀ st (pre0 run0 : list (Response B)),
  Inv st -> Z.of_nat (length run0) = tries_of st -> tries_of st <= MAX_RETRY ->
  Forall retry run0 ->
  outcome (loop st script) = Exc SystemExit ->
  ∃ pre run rest,
    pre0 ++ run0 ++ script = pre ++ run ++ rest
    ∧ Z.of_nat (length run) = MAX_RETRY ∧ Forall retry run.
Proof.
  induction script as [|r script IH]; intros st pre0 run0 Hinv Hlen Hle Hrun Hout.
  - simpl in Hout. destruct (tries_of st <? MAX_RETRY) eqn:E; [discriminate|].
    exists pre0, run0, []. split; [done|]. split; [lia | done].
  - destruct (Z.ltb_spec (tries_of st) MAX_RETRY) as [Hlt | Hge].
    2:{ exists pre0, run0, (r :: script). split; [done|]. split; [lia | done]. }
    rewrite loop_step_outcome in Hout by done.
    pose proof (body_class st r Hinv) as Hc.
    destruct (outcome (body st r)) as [[st'|a]|e'|]; try done.
    + destruct Hc as [Hinv' [[Hr Htr] | Hzero]].
      * destruct (IH st' pre0 (run0 ++ [r]) Hinv')
          as (pre & run & rest & Heq & Hn & Hall);
          [rewrite length_app; simpl; lia | lia
          | apply Forall_app; by repeat constructor | done |].
        exists pre, run, rest. split; [|done].
        rewrite <- Heq, <- !app_assoc. done.
      * destruct (IH st' (pre0 ++ run0 ++ [r]) [] Hinv')
          as (pre & run & rest & Heq & Hn & Hall);
          [simpl; lia | unfold MAX_RETRY; lia | constructor | done |].
        exists pre, run, rest. split; [|done].
        rewrite <- Heq, <- !app_assoc. done.
    + injection Hout as ->.
      destruct (check_rate_limit_outcome r) as [H | [H | H]];
        rewrite H in Hc; discriminate.
Qed.
End LoopOutcomes.

(** The passes of the three loops, classified. *)
Lemma users_lookup_body_class {P} tries (r : Response (list P)) :
  match outcome (users_lookup_body tries r) with
  | Val (Continue tries') =>
      True ∧ ((retried (status_code r) = true ∧ tries' = tries + 1) ∨ tries' = 0)
  | Val (Return _) => True
  | Exc e => outcome (check_rate_limit r) = Exc e
  | Pending => False
  end.
Proof.
  unfold users_lookup_body, retried, log, emit.
  destruct (status_code r =? 200), (not_found2 (status_code r)),
    (status_code r =? 400); simpl orb; simpl negb;
    rewrite ?outcome_bind; simpl outcome at 1; cbv iota beta;
    rewrite ?outcome_bind;
    destruct (check_rate_limit_outcome r) as [H | [H | H]]; rewrite H; simpl; auto.
Qed.

Lemma users_show_body_class {J} tries (r : Response J) :
  match outcome (users_show_body tries r) with
  | Val (Continue tries') =>
      True ∧ ((retried (status_code r) = true ∧ tries' = tries + 1) ∨ tries' = 0)
  | Val (Return _) => True
  | Exc e => outcome (check_rate_limit r) = Exc e
  | Pending => False
  end.
Proof.
  unfold users_show_body, retried, log, emit.
  destruct (status_code r =? 200), (not_found2 (status_code r)),
    (status_code r =? 400); simpl orb; simpl negb;
    rewrite ?outcome_bind; simpl outcome at 1; cbv iota beta;
    rewrite ?outcome_bind;
    destruct (check_rate_limit_outcome r) as [H | [H | H]]; rewrite H; simpl; auto.
Qed.

Lemma retried3_cases code :
  retried3 code = true -> code ≠ 200 ∧ not_found3 code = false.
Proof.
  unfold retried3. intros H. apply negb_true_iff, orb_false_iff in H as [H1 H2].
  split; [lia | done].
Qed.

Lemma user_timeline_body_class st (r : Response (list tweet)) :
  tcount st = size (ids st) ->
  match outcome (user_timeline_body st r) with
  | Val (Continue st') =>
      tcount st' = size (ids st')
      ∧ ((retried3 (status_code r) = true ∧ tries st' = tries st + 1)
         ∨ tries st' = 0)
  | Val (Return _) => True
  | Exc e => outcome (check_rate_limit r) = Exc e
  | Pending => False
  end.
Proof.
  intros Hc.
  destruct (decide (status_code r = 200)) as [Hs | Hs].
  - destruct (decide (page_ids (json r) ⊆ ids st)) as [Hsub | Hnew].
    + by rewrite tl_body_200_done.
    + destruct (tl_body_200_more st r Hs Hc Hnew) as (m & -> & _).
      rewrite outcome_bind.
      destruct (check_rate_limit_outcome r) as [H | [H | H]]; rewrite H; simpl; auto.
  - destruct (not_found3 (status_code r)) eqn:Hnf.
    + rewrite tl_body_not_found by done. unfold log.
      rewrite outcome_emit, outcome_bind.
      destruct (check_rate_limit_outcome r) as [H | [H | H]]; rewrite H; simpl; auto.
    + rewrite tl_body_retry by done.
      rewrite outcome_bind, (proj1 (retry_log_trace _)), outcome_bind.
      assert (retried3 (status_code r) = true) as Hre.
      { unfold retried3. rewrite Hnf. destruct (status_code r =? 200) eqn:E; [lia|done]. }
      destruct (check_rate_limit_outcome r) as [H | [H | H]]; rewrite H; simpl; auto.
Qed.

(** ** Exceptions and exhaustion, for every script *)

(** X3. On responses with decoded bodies (the records of a page each
    with its id), whatever their status codes and headers, an exception
    that leaves [user_timeline], [users_lookup] or [users_show] is
    either the SystemExit of retry exhaustion or the very exception that
    [check_rate_limit] raised on one of the responses: the loops add no
    failure of their own, and [min(ids)] is never asked of an empty
    set. *)
Theorem exceptions_come_from_the_coordinator {P J}
    (s1 : list (Response (list tweet))) (s2 : list (Response (list P)))
    (s3 : list (Response J)) (e : exn) :
  (outcome (user_timeline s1) = Exc e ->
   e = SystemExit ∨ ∃ r, r ∈ s1 ∧ outcome (check_rate_limit r) = Exc e)
  ∧ (outcome (users_lookup s2) = Exc e ->
     e = SystemExit ∨ ∃ r, r ∈ s2 ∧ outcome (check_rate_limit r) = Exc e)
  ∧ (outcome (users_show s3) = Exc e ->
     e = SystemExit ∨ ∃ r, r ∈ s3 ∧ outcome (check_rate_limit r) = Exc e).
Proof.
  split; [|split]; intros Hout.
  - by apply (loop_exc_provenance _ _ _ (λ st, tcount st = size (ids st))
                (λ r, retried3 (status_code r) = true)
                user_timeline_body_class s1 tl_init e eq_refl Hout).
  - by apply (loop_exc_provenance _ _ _ (λ _, True)
                (λ r : Response (list P), retried (status_code r) = true)
                (λ st r _, users_lookup_body_class st r) s2 0 e I Hout).
  - by apply (loop_exc_provenance _ _ _ (λ _, True)
                (λ r : Response J, retried (status_code r) = true)
                (λ st r _, users_show_body_class st r) s3 0 e I Hout).
Qed.

(** X4. The exhaustion of [user_timeline], [users_lookup] or
    [users_show] happens only after MAX_RETRY (1440) retried responses
    in a row: when the operation ends in SystemExit, the script holds a
    run of exactly MAX_RETRY consecutive responses that were all
    retried (for the timeline: status none of 200, 401, 403, 404; for
    the lookups: none of 200, 403, 404). *)
Theorem exhaustion_needs_a_full_run {P J}
    (s1 : list (Response (list tweet))) (s2 : list (Response (list P)))
    (s3 : list (Response J)) :
  (outcome (user_timeline s1) = Exc SystemExit ->
   ∃ pre run rest, s1 = pre ++ run ++ rest
     ∧ Z.of_nat (length run) = MAX_RETRY
     ∧ Forall (λ r, retried3 (status_code r) = true) run)
  ∧ (outcome (users_lookup s2) = Exc SystemExit ->
     ∃ pre run rest, s2 = pre ++ run ++ rest
       ∧ Z.of_nat (length run) = MAX_RETRY
       ∧ Forall (λ r, retried (status_code r) = true) run)
  ∧ (outcome (users_show s3) = Exc SystemExit ->
     ∃ pre run rest, s3 = pre ++ run ++ rest
       ∧ Z.of_nat (length run) = MAX_RETRY
       ∧ Forall (λ r, retried (status_code r) = true) run).
Proof.
  split; [|split]; intros Hout.
  - apply (loop_exit_needs_run tries (λ st, EGet timeline_url (max_id st))
             user_timeline_body (λ st, tcount st = size (ids st))
             (λ r, retried3 (status_code r) = true)
             user_timeline_body_class s1 tl_init [] []); try done.
  - apply (loop_exit_needs_run (λ tries, tries) (λ _, EGet lookup_url None)
             users_lookup_body (λ _, True)
             (λ r : Response (list P), retried (status_code r) = true)
             (λ st r _, users_lookup_body_class st r) s2 0 [] []); try done.
  - apply (loop_exit_needs_run (λ tries, tries) (λ _, EGet show_url None)
             users_show_body (λ _, True)
             (λ r : Response J, retried (status_code r) = true)
             (λ st r _, users_show_body_class st r) s3 0 [] []); try done.
Qed.

(** ** The lookups through retries *)

Lemma iter_succ_tries n (t : Z) : Nat.iter n (λ tries, tries + 1) t = t + Z.of_nat n.
Proof. induction n as [|n IH]; simpl; [lia|]. rewrite IH. lia. Qed.

(** X5. [users_show] has the retry ceiling of [users_lookup]: after
    exactly MAX_RETRY (1440) consecutive retried responses (status none
    of 200, 403, 404) on which the coordinator completes, it raises
    SystemExit whatever would follow; after fewer it is waiting for the
    response to one more request. *)
Theorem users_show_retry_ceiling {J} (script : list (Response J)) :
  Forall (λ r, retried (status_code r) = true ∧ headers_wellformed r = true) script ->
  (Z.of_nat (length script) = MAX_RETRY ->
     ∀ rest, outcome (users_show (script ++ rest)) = Exc SystemExit)
  ∧ (Z.of_nat (length script) < MAX_RETRY ->
     outcome (users_show script) = Pending).
Proof.
  intros Hall. split.
  - intros Hlen rest. unfold users_show, users_show_loop.
    apply (retry_run_exhausts _ _ _ (λ r, retried (status_code r) = true)
             (λ tries, tries + 1) (λ r, retry_log (status_code r))); try done.
    + intros r. apply retry_log_trace.
    + intros st r. apply users_show_body_retry.
  - intros Hlen. unfold users_show, users_show_loop.
    apply (retry_run_pending _ _ _ (λ r, retried (status_code r) = true)
             (λ tries, tries + 1) (λ r, retry_log (status_code r))); try done.
    + intros r. apply retry_log_trace.
    + intros st r. apply users_show_body_retry.
Qed.

(** X6. Retries are transparent for [users_lookup]: after fewer than
    MAX_RETRY retried responses, a 200 gives the decoded body as it is,
    and a 403 or 404 gives the empty list - in both cases once the
    coordinator has completed on that response. *)
Theorem users_lookup_answer_after_retries {P}
    (pre : list (Response (list P))) (r : Response (list P)) rest :
  Forall (λ r, retried (status_code r) = true ∧ headers_wellformed r = true) pre ->
  Z.of_nat (length pre) < MAX_RETRY ->
  headers_wellformed r = true ->
  (status_code r = 200 -> outcome (users_lookup (pre ++ r :: rest)) = Val (json r))
  ∧ (not_found2 (status_code r) = true ->
     outcome (users_lookup (pre ++ r :: rest)) = Val []).
Proof.
  intros Hall Hlen Hwf.
  destruct (check_rate_limit_completes r Hwf) as [tc Hc].
  assert (outcome (users_lookup (pre ++ r :: rest))
          = outcome (x <- users_lookup_body (Nat.iter (length pre) (λ t, t + 1) 0) r;;
                     after (λ tries, tries) (λ _, EGet lookup_url None)
                       users_lookup_body rest x)) as Heq.
  { unfold users_lookup, users_lookup_loop.
    apply (retry_run_answer _ _ _ (λ r, retried (status_code r) = true)
             (λ tries, tries + 1) (λ r, retry_log (status_code r))); try done.
    + intros r'. apply retry_log_trace.
    + intros st r'. apply users_lookup_body_retry. }
  rewrite Heq. unfold users_lookup_body. split.
  - intros Hs. rewrite Hs. simpl Z.eqb. cbv iota.
    by rewrite !bind_assoc, outcome_bind, Hc.
  - intros Hnf. rewrite Hnf.
    assert ((status_code r =? 200) = false) as -> by (unfold not_found2 in Hnf; lia).
    unfold log. by rewrite !bind_assoc, outcome_emit, outcome_bind, Hc.
Qed.

(** X7. Retries are transparent for [users_show]: after fewer than
    MAX_RETRY retried responses, a 200 gives (200, body) and a 403 or
    404 gives (that status, body), once the coordinator has completed
    on that response. *)
Theorem users_show_answer_after_retries {J}
    (pre : list (Response J)) (r : Response J) rest :
  Forall (λ r, retried (status_code r) = true ∧ headers_wellformed r = true) pre ->
  Z.of_nat (length pre) < MAX_RETRY ->
  headers_wellformed r = true ->
  (status_code r = 200 ->
     outcome (users_show (pre ++ r :: rest)) = Val (200, json r))
  ∧ (not_found2 (status_code r) = true ->
     outcome (users_show (pre ++ r :: rest)) = Val (status_code r, json r)).
Proof.
  intros Hall Hlen Hwf.
  destruct (check_rate_limit_completes r Hwf) as [tc Hc].
  assert (outcome (users_show (pre ++ r :: rest))
          = outcome (x <- users_show_body (Nat.iter (length pre) (λ t, t + 1) 0) r;;
                     after (λ tries, tries) (λ _, EGet show_url None)
                       users_show_body rest x)) as Heq.
  { unfold users_show, users_show_loop.
    apply (retry_run_answer _ _ _ (λ r, retried (status_code r) = true)
             (λ tries, tries + 1) (λ r, retry_log (status_code r))); try done.
    + intros r'. apply retry_log_trace.
    + intros st r'. apply users_show_body_retry. }
  rewrite Heq. unfold users_show_body. split.
  - intros Hs. rewrite Hs. simpl Z.eqb. cbv iota.
    by rewrite !bind_assoc, outcome_bind, Hc.
  - intros Hnf. rewrite Hnf.
    assert ((status_code r =? 200) = false) as -> by (unfold not_found2 in Hnf; lia).
    by rewrite !bind_assoc, outcome_bind, Hc.
Qed.

(** ** The timeline through retries *)

Lemma tl_retry_iter_fields n st :
  tweets (Nat.iter n tl_retry st) = tweets st
  ∧ ids (Nat.iter n tl_retry st) = ids st
  ∧ tcount (Nat.iter n tl_retry st) = tcount st
  ∧ max_id (Nat.iter n tl_retry st) = max_id st
  ∧ tries (Nat.iter n tl_retry st) = tries st + Z.of_nat n.
Proof.
  induction n as [|n (H1 & H2 & H3 & H4 & H5)]; simpl; [repeat split; lia|].
  repeat split; try done. rewrite H5. lia.
Qed.

Lemma tl_body_retry3 st (r : Response (list tweet)) :
  retried3 (status_code r) = true ->
  user_timeline_body st r =
    (retry_log (status_code r);; check_rate_limit r;; ret (Continue (tl_retry st))).
Proof.
  intros H. destruct (retried3_cases _ H). by apply tl_body_retry.
Qed.

Lemma tl_outcome_from pre t st script :
  user_timeline_iter tl_init pre = (t, Val (Continue st)) ->
  outcome (user_timeline (pre ++ script)) = outcome (user_timeline_loop st script).
Proof. intros Hit. by rewrite (tl_run_split _ _ _ _ Hit), outcome_bind. Qed.

(** X8. The retry ceiling of [user_timeline] counts from where the loop
    stands: once the responses [pre] have left it running with [tries]
    at some value, retried responses (status none of 200, 401, 403,
    404) that bring [tries] to MAX_RETRY end in SystemExit; fewer leave
    it waiting for one more response; and a 401, 403 or 404 arriving
    after fewer still returns all the records accumulated before the
    retries.  All this on responses on which the coordinator completes
    (well-formed rate-limit headers). *)
Theorem user_timeline_retry_ceiling pre t st (run : list (Response (list tweet))) :
  user_timeline_iter tl_init pre = (t, Val (Continue st)) ->
  Forall (λ r, retried3 (status_code r) = true ∧ headers_wellformed r = true) run ->
  (tries st + Z.of_nat (length run) = MAX_RETRY ->
     ∀ rest, outcome (user_timeline (pre ++ run ++ rest)) = Exc SystemExit)
  ∧ (tries st + Z.of_nat (length run) < MAX_RETRY ->
     outcome (user_timeline (pre ++ run)) = Pending
     ∧ ∀ r rest, not_found3 (status_code r) = true ->
         headers_wellformed r = true ->
         outcome (user_timeline (pre ++ run ++ r :: rest))
         = Val (first_seen (bodies pre))).
Proof.
  intros Hit Hall.
  assert (∀ r : Response (list tweet),
            outcome (retry_log (status_code r)) = Val tt) as Hnote
    by (intros r; apply retry_log_trace).
  split.
  - intros Hlen rest. rewrite (tl_outcome_from _ _ _ _ Hit).
    by apply (retry_run_exhausts _ _ _ (λ r, retried3 (status_code r) = true)
                tl_retry (λ r, retry_log (status_code r)) Hnote
                (λ _, eq_refl) tl_body_retry3).
  - intros Hlen. split.
    + rewrite (tl_outcome_from _ _ _ _ Hit).
      by apply (retry_run_pending _ _ _ (λ r, retried3 (status_code r) = true)
                  tl_retry (λ r, retry_log (status_code r)) Hnote
                  (λ _, eq_refl) tl_body_retry3).
    + intros r rest Hnf Hwf. rewrite (tl_outcome_from _ _ _ _ Hit).
      unfold user_timeline_loop.
      rewrite (retry_run_answer _ _ _ (λ r, retried3 (status_code r) = true)
                 tl_retry (λ r, retry_log (status_code r)) Hnote
                 (λ _, eq_refl) tl_body_retry3) by done.
      rewrite tl_body_not_found by done.
      destruct (check_rate_limit_completes r Hwf) as [tc Hc].
      unfold log. rewrite !bind_assoc, outcome_emit, outcome_bind, Hc.
      unfold outcome at 1. simpl snd. cbv iota beta. rewrite bind_ret_l.
      destruct (tl_retry_iter_fields (length run) st) as [-> _].
      pose proof (tl_reached _ _ _ Hit) as Hinv.
      by destruct (tl_inv_tweets _ _ Hinv) as [-> _].
Qed.

Lemma retry_iter_app {S B A} (tries_of : S -> Z) (request_of : S -> event)
    (body : S -> Response B -> M (step S A)) pre : ∀ st post,
  retry_iter tries_of request_of body st (pre ++ post) =
    (x <- retry_iter tries_of request_of body st pre;;
     match x with
     | Continue st' => retry_iter tries_of request_of body st' post
     | Return a => ret (Return a)
     end).
Proof.
  induction pre as [|r pre IH]; intros st post.
  - simpl app. simpl retry_iter at 2. by rewrite bind_ret_l.
  - destruct (Z.ltb_spec (tries_of st) MAX_RETRY) as [Hlt | Hge].
    + simpl app. rewrite !retry_iter_cons by done.
      rewrite !bind_assoc. apply bind_ext; intros _.
      apply bind_ext; intros [st'|a]; [apply IH | by rewrite bind_ret_l].
    + simpl. destruct (tries_of st <? MAX_RETRY) eqn:E; [lia | reflexivity].
Qed.

(** X9. A page with new records puts [tries] back to zero: when the loop
    is still running right after a 200 response, its retry counter is 0,
    so that MAX_RETRY - 1 retried responses on which the coordinator
    completes can follow without ending the process. *)
Theorem user_timeline_page_resets_tries pre (p : Response (list tweet)) t st run :
  user_timeline_iter tl_init (pre ++ [p]) = (t, Val (Continue st)) ->
  status_code p = 200 ->
  tries st = 0
  ∧ (Forall (λ r, retried3 (status_code r) = true ∧ headers_wellformed r = true) run ->
     Z.of_nat (length run) < MAX_RETRY ->
     outcome (user_timeline ((pre ++ [p]) ++ run)) = Pending).
Proof.
  intros Hit Hs.
  assert (tries st = 0) as Hzero.
  { pose proof Hit as Hit'. unfold user_timeline_iter in Hit'.
    rewrite retry_iter_app in Hit'.
    apply bind_Val_inv in Hit' as (t1 & x & t2 & Hpre & Hlast & _).
    destruct x as [st0|a]; [|discriminate].
    pose proof (tl_reached pre t1 st0 Hpre) as [_ Hcount].
    pose proof (user_timeline_body_class st0 p Hcount) as Hclass.
    destruct (Z.ltb_spec (tries st0) MAX_RETRY) as [Hlt | Hge].
    2:{ simpl in Hlast.
        destruct (tries st0 <? MAX_RETRY) eqn:E; [lia | discriminate]. }
    rewrite retry_iter_cons in Hlast by done.
    apply bind_Val_inv in Hlast as (? & [] & ? & _ & Hlast & _).
    apply bind_Val_inv in Hlast as (tb & y & ? & Hb & Hlast & _).
    rewrite Hb in Hclass. unfold outcome in Hclass. simpl in Hclass.
    destruct y as [st1|a]; [|discriminate]. injection Hlast as _ ->.
    destruct Hclass as [_ [[Hre _] | Hz]]; [|done].
    unfold retried3 in Hre. rewrite Hs in Hre. discriminate. }
  split; [done|]. intros Hall Hlen.
  rewrite (tl_outcome_from _ _ _ _ Hit).
  apply (retry_run_pending _ _ _ (λ r, retried3 (status_code r) = true)
           tl_retry (λ r, retry_log (status_code r))); try done.
  - intros r. apply retry_log_trace.
  - apply tl_body_retry3.
  - lia.
Qed.

(** ** What the timeline holds and asks for *)

(** A pass that continues: the loop variables after it. *)
Lemma tl_body_continue st (r : Response (list tweet)) t st' :
  user_timeline_body st r = (t, Val (Continue st')) ->
  (status_code r = 200
   ∧ tweets st' = (add_page (tweets st, ids st) (json r)).1
   ∧ ids st' = (add_page (tweets st, ids st) (json r)).2
   ∧ ∃ m, max_id st' = Some m ∧ py_min (ids st') = ret m)
  ∨ (status_code r ≠ 200 ∧ st' = tl_retry st).
Proof.
  unfold user_timeline_body. intros Hb.
  destruct (status_code r =? 200) eqn:E200.
  - left. split; [lia|].
    destruct (decide (size (add_page (tweets st, ids st) (json r)).2 = tcount st));
      [discriminate|].
    apply bind_Val_inv in Hb as (t1 & m & t2 & Hm & Hb & _).
    apply bind_Val_inv in Hb as (? & [] & ? & _ & Hb & _).
    injection Hb as _ <-. simpl. repeat split.
    exists m. split; [done|]. unfold py_min in *.
    destruct (elements _); [discriminate|]. injection Hm as _ <-. done.
  - right. split; [lia|].
    destruct (status_code r =? 400).
    + apply bind_Val_inv in Hb as (? & [] & ? & _ & Hb & _).
      apply bind_Val_inv in Hb as (? & [] & ? & _ & Hb & _). by injection Hb.
    + destruct (not_found3 (status_code r)).
      * apply bind_Val_inv in Hb as (? & [] & ? & _ & Hb & _).
        apply bind_Val_inv in Hb as (? & [] & ? & _ & Hb & _). discriminate.
      * apply bind_Val_inv in Hb as (? & [] & ? & _ & Hb & _).
        apply bind_Val_inv in Hb as (? & [] & ? & _ & Hb & _). by injection Hb.
Qed.

Lemma py_min_least (X : gset Z) m :
  py_min X = ret m -> m ∈ X ∧ ∀ x, x ∈ X -> m <= x.
Proof.
  intros Hm. destruct (decide (X = ∅)) as [-> | Hne].
  - unfold py_min in Hm. rewrite elements_empty in Hm. discriminate.
  - destruct (py_min_spec X Hne) as (m' & Hm' & Hin & Hle).
    rewrite Hm' in Hm. injection Hm as <-. done.
Qed.

Lemma tl_body_cursor seen st (r : Response (list tweet)) t st' :
  tl_inv seen st -> tl_cursor seen st ->
  user_timeline_body st r = (t, Val (Continue st')) ->
  tl_cursor (seen ++ bodies [r]) st'.
Proof.
  intros Hinv Hcur Hb.
  destruct (tl_inv_tweets _ _ Hinv) as [_ Hids].
  destruct (tl_body_continue _ _ _ _ Hb)
    as [(Hs & _ & Hi & m & Hmax & Hmin) | [Hs ->]].
  - unfold tl_cursor. rewrite Hmax, bodies_one_200, page_ids_app by done.
    apply py_min_least in Hmin. rewrite Hi, add_page_ids in Hmin. simpl in Hmin.
    by rewrite Hids in Hmin.
  - by rewrite bodies_one_other, app_nil_r.
Qed.

Lemma tl_iter_cursor pre : ∀ seen st t st',
  tl_inv seen st -> tl_cursor seen st ->
  user_timeline_iter st pre = (t, Val (Continue st')) ->
  tl_cursor (seen ++ bodies pre) st'.
Proof.
  unfold user_timeline_iter.
  induction pre as [|r pre IH]; intros seen st t st' Hinv Hcur Hit.
  - simpl in Hit. injection Hit as _ <-. by rewrite app_nil_r.
  - destruct (Z.ltb_spec (tries st) MAX_RETRY) as [Hlt | Hge].
    + rewrite retry_iter_cons in Hit by done.
      apply bind_Val_inv in Hit as (? & [] & ? & _ & Hit & _).
      apply bind_Val_inv in Hit as (t1 & nxt & t2 & Hb & Hit & _).
      destruct nxt as [st1|a]; [|discriminate].
      change (r :: pre) with ([r] ++ pre). rewrite bodies_app, app_assoc.
      eapply IH; [| |exact Hit].
      * by eapply tl_body_inv.
      * by eapply tl_body_cursor.
    + simpl in Hit. destruct (tries st <? MAX_RETRY) eqn:E; [lia | discriminate].
Qed.

(** X10. The cursor of [user_timeline] is the least id seen: while the
    loop runs, [params["max_id"]] is absent as long as no record has
    arrived and is afterwards the minimum of all ids received so far,
    retried responses in between leaving it as it is; the next request
    carries it. *)
Theorem user_timeline_cursor_is_least_id pre t st :
  user_timeline_iter tl_init pre = (t, Val (Continue st)) ->
  match max_id st with
  | None => bodies pre = []
  | Some m => m ∈ page_ids (bodies pre) ∧ ∀ x, x ∈ page_ids (bodies pre) -> m <= x
  end
  ∧ (tries st < MAX_RETRY ->
     user_timeline pre = (t ++ [EGet timeline_url (max_id st)], Pending)).
Proof.
  intros Hit. split.
  - by apply (tl_iter_cursor pre [] tl_init t st tl_inv_init).
  - intros Hlt. rewrite <- (app_nil_r pre) at 1.
    rewrite (tl_run_split _ _ _ _ Hit). unfold user_timeline_loop.
    by rewrite retry_loop_nil.
Qed.

(** X11. [user_timeline] only ever adds: across any stretch of the loop,
    from any values of its variables, the list of records is extended at
    its end (what was collected keeps its place) and the id set grows or
    stays. *)
Theorem user_timeline_only_grows pre : ∀ st t st',
  user_timeline_iter st pre = (t, Val (Continue st')) ->
  tweets st `prefix_of` tweets st' ∧ ids st ⊆ ids st'
  ∧ (size (ids st) <= size (ids st'))%nat.
Proof.
  unfold user_timeline_iter.
  induction pre as [|r pre IH]; intros st t st' Hit.
  - simpl in Hit. injection Hit as _ <-. done.
  - destruct (Z.ltb_spec (tries st) MAX_RETRY) as [Hlt | Hge].
    2:{ simpl in Hit. destruct (tries st <? MAX_RETRY) eqn:E; [lia | discriminate]. }
    rewrite retry_iter_cons in Hit by done.
    apply bind_Val_inv in Hit as (? & [] & ? & _ & Hit & _).
    apply bind_Val_inv in Hit as (t1 & nxt & t2 & Hb & Hit & _).
    destruct nxt as [st1|a]; [|discriminate].
    destruct (IH _ _ _ Hit) as (Hp & Hsub & _).
    assert (tweets st `prefix_of` tweets st1 ∧ ids st ⊆ ids st1) as [Hp1 Hsub1].
    { destruct (tl_body_continue _ _ _ _ Hb) as [(_ & Htw & Hi & _) | [_ ->]];
        [|done].
      rewrite Htw, Hi, add_page_tweets, add_page_ids. simpl.
      split; [by eexists | set_solver]. }
    split; [by etrans|]. split; [by etrans|].
    apply subseteq_size. by etrans.
Qed.

Lemma tl_body_return seen st (r : Response (list tweet)) t l :
  tl_inv seen st ->
  user_timeline_body st r = (t, Val (Return l)) ->
  l = first_seen (seen ++ bodies [r]).
Proof.
  intros [Hacc _] Hb. unfold user_timeline_body in Hb.
  destruct (status_code r =? 200) eqn:E200.
  - rewrite bodies_one_200 by lia.
    destruct (decide (size (add_page (tweets st, ids st) (json r)).2 = tcount st)).
    + injection Hb as _ <-.
      by rewrite <- add_page_first_seen, add_page_app, <- Hacc.
    + apply bind_Val_inv in Hb as (? & ? & ? & _ & Hb & _).
      apply bind_Val_inv in Hb as (? & [] & ? & _ & Hb & _). discriminate.
  - rewrite bodies_one_other, app_nil_r by lia.
    destruct (status_code r =? 400).
    + apply bind_Val_inv in Hb as (? & [] & ? & _ & Hb & _).
      apply bind_Val_inv in Hb as (? & [] & ? & _ & Hb & _). discriminate.
    + destruct (not_found3 (status_code r)).
      * apply bind_Val_inv in Hb as (? & [] & ? & _ & Hb & _).
        apply bind_Val_inv in Hb as (? & [] & ? & _ & Hb & _).
        injection Hb as _ <-.
        by rewrite <- add_page_first_seen, <- Hacc.
      * apply bind_Val_inv in Hb as (? & [] & ? & _ & Hb & _).
        apply bind_Val_inv in Hb as (? & [] & ? & _ & Hb & _). discriminate.
Qed.

(** When the loop returns, it does so on one response of the script:
    it is still asking after the responses before it, and what follows
    it plays no part. *)
Lemma tl_loop_result script : ∀ seen st l,
  tl_inv seen st ->
  outcome (user_timeline_loop st script) = Val l ->
  ∃ pre r rest,
    script = pre ++ r :: rest
    ∧ outcome (user_timeline_loop st pre) = Pending
    ∧ (∀ rest', outcome (user_timeline_loop st (pre ++ r :: rest')) = Val l)
    ∧ l = first_seen (seen ++ bodies (pre ++ [r])).
Proof.
  unfold user_timeline_loop.
  induction script as [|r script IH]; intros seen st l Hinv Hout.
  - simpl in Hout. by destruct (tries st <? MAX_RETRY).
  - destruct (Z.ltb_spec (tries st) MAX_RETRY) as [Hlt | Hge].
    2:{ by rewrite retry_loop_exhausted in Hout. }
    rewrite loop_step_outcome in Hout by done.
    destruct (outcome (user_timeline_body st r)) as [[st'|a]| |] eqn:Hb;
      try discriminate.
    + assert (tl_inv (seen ++ bodies [r]) st') as Hinv'.
      { destruct (user_timeline_body st r) as [tb res] eqn:Hbody.
        unfold outcome in Hb. simpl in Hb. subst res. by eapply tl_body_inv. }
      destruct (IH (seen ++ bodies [r]) st' l Hinv' Hout)
        as (pre & r' & rest & -> & Hpend & Hret & ->).
      exists (r :: pre), r', rest. split; [done|]. split; [|split].
      * simpl app. by rewrite loop_step_outcome, Hb.
      * intros rest'. simpl app. rewrite loop_step_outcome, Hb by done.
        apply Hret.
      * change (r :: pre) with ([r] ++ pre).
        by rewrite <- !app_assoc, !bodies_app, !app_assoc.
    + injection Hout as ->. exists [], r, script. split; [done|].
      split; [by rewrite retry_loop_nil|]. split.
      * intros rest'. simpl app. by rewrite loop_step_outcome, Hb.
      * destruct (user_timeline_body st r) as [tb res] eqn:Hbody.
        unfold outcome in Hb. simpl in Hb. subst res. by eapply tl_body_return.
Qed.

(** X12. Whatever the responses and by whichever path it returns
    (a page without new ids, or a 401, 403 or 404), [user_timeline]
    returns on one response [r] of the script: it is still asking after
    the responses [pre] before [r], and returns the same list whatever
    follows [r].  That list is the records of the 200 pages among
    [pre ++ [r]], each id once, in the order of first arrival; no two of
    its records have the same id. *)
Theorem user_timeline_result_has_no_duplicates script l :
  outcome (user_timeline script) = Val l ->
  NoDup (tweet_id <$> l)
  ∧ ∃ pre r rest,
      script = pre ++ r :: rest
      ∧ outcome (user_timeline pre) = Pending
      ∧ (∀ rest', outcome (user_timeline (pre ++ r :: rest')) = Val l)
      ∧ l = first_seen (bodies (pre ++ [r])).
Proof.
  intros Hout.
  destruct (tl_loop_result script [] tl_init l tl_inv_init Hout)
    as (pre & r & rest & -> & Hpend & Hret & ->).
  split; [apply first_seen_NoDup | by exists pre, r, rest].
Qed.

(** ** Runs that never sleep *)

Section QuietRuns.
Context {S B A : Type}.
Variable tries_of : S -> Z.
Variable request_of : S -> event.
Variable body : S -> Response B -> M (step S A).
Hypothesis request_is_get : ∀ st, sleeps [request_of st] = [].
Hypothesis body_quiet : ∀ st r, calls_left r = true -> sleeps (trace (body st r)) = [].

Lemma retry_loop_quiet script : ∀ st,
  Forall (λ r, calls_left r = true) script ->
  sleeps (trace (retry_loop tries_of request_of body st script)) = [].
Proof.
  induction script as [|r script IH]; intros st Hall.
  - simpl. destruct (tries_of st <? MAX_RETRY); [|done]. apply request_is_get.
  - destruct (Z.ltb_spec (tries_of st) MAX_RETRY) as [Hlt | Hge].
    2:{ by rewrite retry_loop_exhausted. }
    inversion Hall as [|? ? Hr Hall']; subst.
    rewrite retry_loop_cons, trace_bind by done.
    unfold emit at 1 2. unfold trace at 1, outcome at 1. simpl fst. simpl snd.
    cbv iota beta. rewrite trace_bind, !sleeps_app.
    rewrite request_is_get, body_quiet by done. simpl.
    destruct (outcome (body st r)) as [[st'|a]| |]; try done.
    by apply IH.
Qed.
End QuietRuns.

Lemma calls_left_coordinator {B} (r : Response B) :
  calls_left r = true ->
  check_rate_limit r = ([EHeader "x-rate-limit-remaining"], Val tt).
Proof.
  unfold calls_left. destruct (remaining_of r) as [remain|] eqn:E; [|discriminate].
  intros H. apply (check_rate_limit_high r remain E). lia.
Qed.

(** X13. As long as every response says that more than
    RATE_LIMIT_BUFFER (5) calls are left, none of the three operations
    ever sleeps, whatever the status codes: retries then follow one
    another without any pause. *)
Theorem no_sleep_while_calls_are_left {P J}
    (s1 : list (Response (list tweet))) (s2 : list (Response (list P)))
    (s3 : list (Response J)) :
  (Forall (λ r, calls_left r = true) s1 -> sleeps (trace (user_timeline s1)) = [])
  ∧ (Forall (λ r, calls_left r = true) s2 -> sleeps (trace (users_lookup s2)) = [])
  ∧ (Forall (λ r, calls_left r = true) s3 -> sleeps (trace (users_show s3)) = []).
Proof.
  split; [|split]; intros Hall.
  - apply retry_loop_quiet; [done | | done].
    intros st r Hr. unfold user_timeline_body, py_min, log, emit.
    rewrite (calls_left_coordinator r Hr).
    destruct (status_code r =? 200); [|by destruct (status_code r =? 400),
                                              (not_found3 (status_code r))].
    destruct (decide _); [done|]. by destruct (elements _).
  - apply retry_loop_quiet; [done | | done].
    intros st r Hr. unfold users_lookup_body, log, emit.
    rewrite (calls_left_coordinator r Hr).
    by destruct (status_code r =? 200), (not_found2 (status_code r)),
         (status_code r =? 400).
  - apply retry_loop_quiet; [done | | done].
    intros st r Hr. unfold users_show_body, log, emit.
    rewrite (calls_left_coordinator r Hr).
    by destruct (status_code r =? 200), (not_found2 (status_code r)),
         (status_code r =? 400).
Qed.

(** ** The 401 *)

(** X14. A 401 is handled differently by the operations: [user_timeline]
    takes it as the end of the timeline and returns what it has, while
    [users_lookup] and [users_show] retry it like an unexpected status,
    so that MAX_RETRY responses of status 401 end them in SystemExit
    and fewer leave them waiting.  All this on responses on which the
    coordinator completes (well-formed rate-limit headers). *)
Theorem unauthorized_ends_the_timeline_only {P J}
    (p : Response (list tweet)) rest
    (s2 : list (Response (list P))) (s3 : list (Response J)) :
  status_code p = 401 -> headers_wellformed p = true ->
  Forall (λ r, status_code r = 401 ∧ headers_wellformed r = true) s2 ->
  Forall (λ r, status_code r = 401 ∧ headers_wellformed r = true) s3 ->
  outcome (user_timeline (p :: rest)) = Val []
  ∧ outcome (users_lookup s2)
    = (if Z.of_nat (length s2) <? MAX_RETRY then Pending else Exc SystemExit)
  ∧ outcome (users_show s3)
    = (if Z.of_nat (length s3) <? MAX_RETRY then Pending else Exc SystemExit).
Proof.
  intros Hp Hwf H2 H3. split; [|split].
  - unfold user_timeline, user_timeline_loop.
    rewrite retry_loop_cons by done.
    rewrite tl_body_not_found by (by rewrite Hp).
    destruct (check_rate_limit_completes p Hwf) as [tc Hc].
    unfold log. by rewrite outcome_emit, !bind_assoc, outcome_emit, outcome_bind, Hc.
  - assert (∀ n (l : list (Response (list P))),
              Forall (λ r, status_code r = 401 ∧ headers_wellformed r = true) l ->
              Forall (λ r, retried (status_code r) = true
                           ∧ headers_wellformed r = true) (take n l)) as Htake.
    { intros n l Hl. apply Forall_take. eapply Forall_impl; [exact Hl|].
      intros r [Hs Hw]. by rewrite Hs. }
    assert (∀ r : Response (list P), outcome (retry_log (status_code r)) = Val tt)
      as Hnote by (intros r; apply retry_log_trace).
    unfold users_lookup, users_lookup_loop.
    destruct (Z.ltb_spec (Z.of_nat (length s2)) MAX_RETRY) as [Hlt | Hge].
    + rewrite <- (firstn_all s2) at 1.
      by apply (retry_run_pending _ _ _ (λ r, retried (status_code r) = true)
                  (λ t, t + 1) (λ r, retry_log (status_code r)) Hnote
                  (λ _, eq_refl) (λ st r, users_lookup_body_retry st r)
                  _ 0 (Htake _ _ H2)); rewrite firstn_all; lia.
    + rewrite <- (take_drop (Z.to_nat MAX_RETRY) s2).
      apply (retry_run_exhausts _ _ _ (λ r, retried (status_code r) = true)
               (λ t, t + 1) (λ r, retry_log (status_code r)) Hnote
               (λ _, eq_refl) (λ st r, users_lookup_body_retry st r)
               _ 0 _ (Htake _ _ H2)).
      rewrite length_take. unfold MAX_RETRY in *. lia.
  - assert (∀ n (l : list (Response J)),
              Forall (λ r, status_code r = 401 ∧ headers_wellformed r = true) l ->
              Forall (λ r, retried (status_code r) = true
                           ∧ headers_wellformed r = true) (take n l)) as Htake.
    { intros n l Hl. apply Forall_take. eapply Forall_impl; [exact Hl|].
      intros r [Hs Hw]. by rewrite Hs. }
    assert (∀ r : Response J, outcome (retry_log (status_code r)) = Val tt)
      as Hnote by (intros r; apply retry_log_trace).
    unfold users_show, users_show_loop.
    destruct (Z.ltb_spec (Z.of_nat (length s3)) MAX_RETRY) as [Hlt | Hge].
    + rewrite <- (firstn_all s3) at 1.
      by apply (retry_run_pending _ _ _ (λ r, retried (status_code r) = true)
                  (λ t, t + 1) (λ r, retry_log (status_code r)) Hnote
                  (λ _, eq_refl) (λ st r, users_show_body_retry st r)
                  _ 0 (Htake _ _ H3)); rewrite firstn_all; lia.
    + rewrite <- (take_drop (Z.to_nat MAX_RETRY) s3).
      apply (retry_run_exhausts _ _ _ (λ r, retried (status_code r) = true)
               (λ t, t + 1) (λ r, retry_log (status_code r)) Hnote
               (λ _, eq_refl) (λ st r, users_show_body_retry st r)
               _ 0 _ (Htake _ _ H3)).
      rewrite length_take. unfold MAX_RETRY in *. lia.
Qed.

End Twitter.

Arguments check_rate_limit {datetime} times_parse times_to_unix {B} r.
Arguments user_timeline {datetime} times_parse times_to_unix script.
Arguments user_timeline_iter {datetime} times_parse times_to_unix _ _.
Arguments users_lookup {datetime} times_parse times_to_unix {P} script.
Arguments users_show {datetime} times_parse times_to_unix {J} script.
Arguments users_show_loop {datetime} times_parse times_to_unix {J} _ _.
Arguments server_time_of {datetime} times_parse times_to_unix {B} r.
Arguments headers_wellformed {datetime} times_parse times_to_unix {B} r.
Arguments required_header_absent {datetime} times_parse times_to_unix {B} r.
Arguments check_all {datetime} times_parse times_to_unix {B} rs.

(** * The properties at work on the fixtures *)

(** Plenty of calls left and no date or reset header: nothing happens. *)
Lemma above_low_water_mark_witness :
  check_rate_limit sample_parse sample_to_unix r_high
    = ([EHeader "x-rate-limit-remaining"], Val tt)
  ∧ headers r_high !! "date" = None
  ∧ headers r_high !! "x-rate-limit-reset" = None.
Proof.
  split; [|split; reflexivity].
  apply (check_rate_limit_above_low_water_mark Z sample_parse sample_to_unix
           r_high 170); reflexivity.
Defined.



(** No rate-limit header at all: one sleep of 60 seconds, an error log. *)
Lemma missing_header_witness :
  outcome (check_rate_limit sample_parse sample_to_unix r_bare) = Val tt
  ∧ sleeps (trace (check_rate_limit sample_parse sample_to_unix r_bare)) = [60].
Proof.
  destruct (check_rate_limit_missing_header Z sample_parse sample_to_unix r_bare)
    as (Ho & Hs & _); [by left|].
  split; [exact Ho | exact Hs].
Defined.

(** C6, as stated, fails on [r_nodate]: the reset-time header is absent,
    but the date that the code reads before it cannot be read, and the
    coordinator raises ValueError there: it does not sleep 60 seconds
    and reports nothing. *)
Lemma unreadable_date_hides_absent_reset :
  headers r_nodate !! "x-rate-limit-reset" = None
  ∧ remaining_of r_nodate = Some 3
  ∧ check_rate_limit sample_parse sample_to_unix r_nodate =
      ([EHeader "x-rate-limit-remaining"; ELog LDebug "Hit rate limit - {}";
        EHeader "date"],
       Exc ValueError)
  ∧ sleeps (trace (check_rate_limit sample_parse sample_to_unix r_nodate)) = [].
Proof. repeat split; reflexivity. Qed.



(** The third page repeats the oldest record and brings nothing: the run
    ends with the request for it, and what might follow is not asked
    for. *)
Lemma stops_without_new_ids_witness :
  user_timeline sample_parse sample_to_unix ([page_a; page_b] ++ page_c :: [page_gone])
  = ([EGet timeline_url None; EHeader "x-rate-limit-remaining";
      EGet timeline_url (Some 4); EHeader "x-rate-limit-remaining";
      EGet timeline_url (Some 3)],
     Val [mkTweet 5 "five"; mkTweet 4 "four"; mkTweet 3 "three"]).
Proof.
  pose (st := {| tweets := [mkTweet 5 "five"; mkTweet 4 "four"; mkTweet 3 "three"];
                 ids := (add_page ([], ∅) (bodies [page_a; page_b])).2;
                 tcount := 3; max_id := Some 3; tries := 0 |}).
  assert (page_ids (json page_c) ⊆ page_ids (bodies [page_a; page_b])) as Hsub.
  { apply (bool_decide_unpack _). by vm_compute. }
  destruct (user_timeline_stops_without_new_ids Z sample_parse sample_to_unix
              [page_a; page_b]
              [EGet timeline_url None; EHeader "x-rate-limit-remaining";
               EGet timeline_url (Some 4); EHeader "x-rate-limit-remaining"]
              st page_c [page_gone])
    as [Heq _]; [by vm_compute | by vm_compute | reflexivity | exact Hsub |].
  exact Heq.
Defined.

(** Two pages, then a 404: the three records of the pages, as a normal
    return. *)
Lemma not_found_witness :
  outcome (user_timeline sample_parse sample_to_unix
             ([page_a; page_b] ++ page_gone :: [page_c]))
  = Val [mkTweet 5 "five"; mkTweet 4 "four"; mkTweet 3 "three"].
Proof.
  pose (st := {| tweets := [mkTweet 5 "five"; mkTweet 4 "four"; mkTweet 3 "three"];
                 ids := (add_page ([], ∅) (bodies [page_a; page_b])).2;
                 tcount := 3; max_id := Some 3; tries := 0 |}).
  destruct (user_timeline_not_found Z sample_parse sample_to_unix
              [page_a; page_b]
              [EGet timeline_url None; EHeader "x-rate-limit-remaining";
               EGet timeline_url (Some 4); EHeader "x-rate-limit-remaining"]
              st page_gone [page_c])
    as (_ & _ & Hret & _); [by vm_compute | by vm_compute | reflexivity |].
  rewrite Hret; reflexivity.
Defined.

(** C7, as stated, fails on a 404 whose remaining-calls header is not a
    number: after the page [page_a] the run has a response of status
    404, and it ends in ValueError instead of returning the two records
    of the page. *)
Lemma not_found_with_unreadable_header :
  status_code page_gone_bad = 404
  ∧ user_timeline sample_parse sample_to_unix [page_a; page_gone_bad]
    = ([EGet timeline_url None; EHeader "x-rate-limit-remaining";
        EGet timeline_url (Some 4);
        ELog LInfo "Try {}: User doesn't exist - {} {}";
        EHeader "x-rate-limit-remaining"],
       Exc ValueError).
Proof. split; [reflexivity | by vm_compute]. Qed.

(** C2, as stated, fails on three successful pages of which the first
    has a remaining-calls header that is not a number: the pages are
    all 200, the first two bring new ids (minimum 4, then 3), the third
    brings none, and the run ends in ValueError after the first page
    instead of returning the three records. *)
Lemma paging_with_unreadable_header :
  Forall (λ r : Response (list tweet), status_code r = 200)
    [page_a_bad; page_b; page_c]
  ∧ progressing ∅ [page_a_bad; page_b]
  ∧ page_ids (json page_c) ⊆ page_ids (concat (json <$> [page_a_bad; page_b]))
  ∧ user_timeline sample_parse sample_to_unix ([page_a_bad; page_b] ++ [page_c])
    = ([EGet timeline_url None; EHeader "x-rate-limit-remaining"],
       Exc ValueError).
Proof.
  split; [repeat constructor|]. split; [|split].
  - split; [|split; [|exact I]]; intros Hsub;
      apply (bool_decide_pack _) in Hsub; by vm_compute in Hsub.
  - apply (bool_decide_unpack _). by vm_compute.
  - by vm_compute.
Qed.

(** Two pages with new records, then one without: the three records,
    each once, newest first as they came. *)
Lemma collects_pages_witness :
  outcome (user_timeline sample_parse sample_to_unix
             ([page_a; page_b] ++ page_c :: []))
  = Val [mkTweet 5 "five"; mkTweet 4 "four"; mkTweet 3 "three"].
Proof.
  destruct (user_timeline_collects_pages Z sample_parse sample_to_unix
              [page_a; page_b] page_c [])
    as (_ & Hret & _).
  - repeat constructor.
  - split; [|split; [|exact I]]; intros Hsub;
      apply (bool_decide_pack _) in Hsub; by vm_compute in Hsub.
  - reflexivity.
  - apply (bool_decide_unpack _). by vm_compute.
  - rewrite Hret; [reflexivity|]. repeat constructor.
Defined.

(** 1440 server errors: the exhaustion; 1439: still asking. *)
Lemma retry_ceiling_witness :
  outcome (users_lookup sample_parse sample_to_unix
             (replicate 1440 r_500 ++ [r_404])) = Exc SystemExit
  ∧ outcome (users_lookup sample_parse sample_to_unix (replicate 1439 r_500))
    = Pending.
Proof.
  assert (∀ n, Forall (λ r : Response (list string),
                 retried (status_code r) = true
                 ∧ headers_wellformed sample_parse sample_to_unix r = true)
               (replicate n r_500)) as Hall.
  { intros n. apply Forall_replicate. split; reflexivity. }
  split.
  - destruct (users_lookup_retry_ceiling Z sample_parse sample_to_unix
                (replicate 1440 r_500) (Hall 1440%nat)) as [Hexit _].
    apply Hexit. rewrite length_replicate. reflexivity.
  - destruct (users_lookup_retry_ceiling Z sample_parse sample_to_unix
                (replicate 1439 r_500) (Hall 1439%nat)) as [_ Hpend].
    apply Hpend. rewrite length_replicate. reflexivity.
Defined.

(** C4, as stated, fails on 1440 responses of status 404: none of them
    is a 200, and the operation returns the empty list at the first one
    instead of ending the process. *)
Lemma not_found_is_not_retried :
  length (replicate 1440 r_404) = 1440%nat
  ∧ Forall (λ r : Response (list string), status_code r ≠ 200) (replicate 1440 r_404)
  ∧ users_lookup sample_parse sample_to_unix (replicate 1440 r_404)
    = ([EGet lookup_url None;
        ELog LInfo "Try {}: User doesn't exist - {} {}";
        EHeader "x-rate-limit-remaining"],
       Val []).
Proof.
  split; [apply length_replicate|]. split.
  - apply Forall_replicate. by vm_compute.
  - by vm_compute.
Qed.

(** A 403 comes back with its status and its body; a 400 before it is
    retried and does not show in the result. *)
Lemma status_passthrough_witness :
  outcome (users_show sample_parse sample_to_unix [r_403]) = Val (403, "suspended")
  ∧ outcome (users_show sample_parse sample_to_unix [r_400_bare; r_403])
    = Val (403, "suspended").
Proof.
  destruct (users_show_status_passthrough Z sample_parse sample_to_unix
              0 r_403 []) as (_ & H403 & _ & _); [by vm_compute|].
  destruct (users_show_status_passthrough Z sample_parse sample_to_unix
              0 r_400_bare [r_403]) as (_ & _ & H400 & _); [by vm_compute|].
  split.
  - apply H403; reflexivity.
  - unfold users_show. rewrite H400 by reflexivity. reflexivity.
Defined.

(** C8, as stated, fails on a 200 whose remaining-calls header is not a
    number: [users_show] does not return (200, profile) but ends in
    ValueError. *)
Lemma profile_with_unreadable_header :
  status_code r_200s_bad = 200
  ∧ users_show sample_parse sample_to_unix [r_200s_bad]
    = ([EGet show_url None; EHeader "x-rate-limit-remaining"], Exc ValueError).
Proof. split; reflexivity. Qed.



(** * The further properties at work on the fixtures *)

(** The skewed clock: the call of [sleep] with -940 is the last event. *)
Lemma sleeps_at_most_once_witness :
  last (trace (check_rate_limit sample_parse sample_to_unix r_skew))
  = Some (ESleep (-940)).
Proof.
  destruct (check_rate_limit_sleeps_at_most_once Z sample_parse sample_to_unix r_skew)
    as (_ & Hlast & _).
  apply Hlast.
  assert (sleeps (trace (check_rate_limit sample_parse sample_to_unix r_skew))
          = [-940]) as -> by reflexivity.
  by left.
Defined.

(** The ValueError that leaves [users_show] was raised by the
    coordinator on the throttled answer. *)
Lemma exceptions_come_from_the_coordinator_witness :
  ∃ r, r ∈ [r_400_bad]
       ∧ outcome (check_rate_limit sample_parse sample_to_unix r) = Exc ValueError.
Proof.
  destruct (exceptions_come_from_the_coordinator Z sample_parse sample_to_unix
              [page_a] [r_500] [r_400_bad] ValueError) as (_ & _ & Hshow).
  destruct Hshow as [Habs | Hr]; [reflexivity | discriminate Habs | exact Hr].
Defined.

(** 1440 throttled answers end the timeline in SystemExit: they are the
    run the theorem finds. *)
Lemma exhaustion_needs_a_full_run_witness :
  ∃ pre run rest,
    replicate 1440 page_400 = pre ++ run ++ rest
    ∧ Z.of_nat (length run) = MAX_RETRY
    ∧ Forall (λ r : Response (list tweet), retried3 (status_code r) = true) run.
Proof.
  destruct (exhaustion_needs_a_full_run Z sample_parse sample_to_unix
              (replicate 1440 page_400) [r_500] [r_403]) as (Htl & _ & _).
  apply Htl. by vm_compute.
Defined.

(** 1440 refusals end [users_show] in SystemExit, whatever follows. *)
Lemma users_show_retry_ceiling_witness :
  outcome (users_show sample_parse sample_to_unix (replicate 1440 r_401s ++ [r_403]))
  = Exc SystemExit.
Proof.
  destruct (users_show_retry_ceiling Z sample_parse sample_to_unix
              (replicate 1440 r_401s)) as [Hexit _].
  - apply Forall_replicate. split; reflexivity.
  - apply Hexit. rewrite length_replicate. reflexivity.
Defined.

(** A server error and a refusal, then the profiles. *)
Lemma users_lookup_answer_witness :
  outcome (users_lookup sample_parse sample_to_unix ([r_500; r_401] ++ r_200 :: []))
  = Val ["alice"; "bob"].
Proof.
  destruct (users_lookup_answer_after_retries Z sample_parse sample_to_unix
              [r_500; r_401] r_200 []) as [H200 _].
  - repeat constructor.
  - by vm_compute.
  - reflexivity.
  - apply H200. reflexivity.
Defined.

(** A throttled answer and a refusal, then the profile with its status. *)
Lemma users_show_answer_witness :
  outcome (users_show sample_parse sample_to_unix
             ([r_400_bare; r_401s] ++ r_200s :: []))
  = Val (200, "alice").
Proof.
  destruct (users_show_answer_after_retries Z sample_parse sample_to_unix
              [r_400_bare; r_401s] r_200s []) as [H200 _].
  - repeat constructor.
  - by vm_compute.
  - reflexivity.
  - apply H200. reflexivity.
Defined.

(** One page, two throttled answers, then a 404: the records of the page. *)
Lemma user_timeline_retry_ceiling_witness :
  outcome (user_timeline sample_parse sample_to_unix
             ([page_a] ++ [page_400; page_400] ++ page_gone :: []))
  = Val [mkTweet 5 "five"; mkTweet 4 "four"].
Proof.
  pose (st := {| tweets := [mkTweet 5 "five"; mkTweet 4 "four"];
                 ids := (add_page ([], ∅) (bodies [page_a])).2;
                 tcount := 2; max_id := Some 4; tries := 0 |}).
  destruct (user_timeline_retry_ceiling Z sample_parse sample_to_unix
              [page_a] [EGet timeline_url None; EHeader "x-rate-limit-remaining"]
              st [page_400; page_400]) as [_ Hfew].
  - by vm_compute.
  - repeat constructor.
  - destruct Hfew as [_ Hret]; [by vm_compute|].
    rewrite (Hret page_gone []); reflexivity.
Defined.

(** Two throttled answers, a page with new records, then 1439 more
    throttled answers: 1441 retried responses in all, and the timeline
    is still asking, for the page put the counter back to zero. *)
Lemma page_resets_tries_witness :
  outcome (user_timeline sample_parse sample_to_unix
             (([page_400; page_400] ++ [page_a]) ++ replicate 1439 page_400))
  = Pending.
Proof.
  pose (st := {| tweets := [mkTweet 5 "five"; mkTweet 4 "four"];
                 ids := (add_page ([], ∅) (bodies [page_a])).2;
                 tcount := 2; max_id := Some 4; tries := 0 |}).
  destruct (user_timeline_page_resets_tries Z sample_parse sample_to_unix
              [page_400; page_400] page_a
              [EGet timeline_url None;
               ELog LInfo "Try {}: Being throttled - {} {}";
               EHeader "x-rate-limit-remaining";
               EGet timeline_url None;
               ELog LInfo "Try {}: Being throttled - {} {}";
               EHeader "x-rate-limit-remaining";
               EGet timeline_url None; EHeader "x-rate-limit-remaining"]
              st (replicate 1439 page_400)) as [_ Hpend].
  - by vm_compute.
  - reflexivity.
  - apply Hpend.
    + apply Forall_replicate. split; reflexivity.
    + rewrite length_replicate. reflexivity.
Defined.

(** After the page with ids 5 and 4 and a throttled answer, the request
    asks for max_id = 4. *)
Lemma cursor_is_least_id_witness :
  user_timeline sample_parse sample_to_unix [page_a; page_400]
  = ([EGet timeline_url None; EHeader "x-rate-limit-remaining";
      EGet timeline_url (Some 4);
      ELog LInfo "Try {}: Being throttled - {} {}";
      EHeader "x-rate-limit-remaining";
      EGet timeline_url (Some 4)],
     Pending).
Proof.
  pose (st := {| tweets := [mkTweet 5 "five"; mkTweet 4 "four"];
                 ids := (add_page ([], ∅) (bodies [page_a])).2;
                 tcount := 2; max_id := Some 4; tries := 1 |}).
  destruct (user_timeline_cursor_is_least_id Z sample_parse sample_to_unix
              [page_a; page_400]
              [EGet timeline_url None; EHeader "x-rate-limit-remaining";
               EGet timeline_url (Some 4);
               ELog LInfo "Try {}: Being throttled - {} {}";
               EHeader "x-rate-limit-remaining"]
              st) as [_ Hreq].
  - by vm_compute.
  - apply Hreq. by vm_compute.
Defined.

(** The second page leaves the records of the first where they are. *)
Lemma only_grows_witness :
  [mkTweet 5 "five"; mkTweet 4 "four"]
  `prefix_of` [mkTweet 5 "five"; mkTweet 4 "four"; mkTweet 3 "three"].
Proof.
  pose (st := {| tweets := [mkTweet 5 "five"; mkTweet 4 "four"; mkTweet 3 "three"];
                 ids := (add_page ([], ∅) (bodies [page_a; page_b])).2;
                 tcount := 3; max_id := Some 3; tries := 0 |}).
  pose (st0 := {| tweets := [mkTweet 5 "five"; mkTweet 4 "four"];
                  ids := (add_page ([], ∅) (bodies [page_a])).2;
                  tcount := 2; max_id := Some 4; tries := 0 |}).
  destruct (user_timeline_only_grows Z sample_parse sample_to_unix [page_b] st0
              [EGet timeline_url (Some 4); EHeader "x-rate-limit-remaining"] st)
    as [Hp _].
  - by vm_compute.
  - exact Hp.
Defined.

(** The three pages overlap, the result does not. *)
Lemma result_has_no_duplicates_witness :
  NoDup (tweet_id <$> [mkTweet 5 "five"; mkTweet 4 "four"; mkTweet 3 "three"]).
Proof.
  destruct (user_timeline_result_has_no_duplicates Z sample_parse sample_to_unix
              [page_a; page_b; page_c]
              [mkTweet 5 "five"; mkTweet 4 "four"; mkTweet 3 "three"]) as [Hnd _].
  - by vm_compute.
  - exact Hnd.
Defined.

(** 1440 server errors with calls left: not one sleep before the end. *)
Lemma no_sleep_witness :
  sleeps (trace (users_lookup sample_parse sample_to_unix (replicate 1440 r_500)))
  = [].
Proof.
  destruct (no_sleep_while_calls_are_left Z sample_parse sample_to_unix
              [page_a] (replicate 1440 r_500) [r_403]) as (_ & Hlook & _).
  apply Hlook. apply Forall_replicate. reflexivity.
Defined.

(** A 401 ends the timeline at once and keeps [users_show] retrying to
    the end. *)
Lemma unauthorized_witness :
  outcome (user_timeline sample_parse sample_to_unix (page_401 :: [page_a])) = Val []
  ∧ outcome (users_show sample_parse sample_to_unix (replicate 1440 r_401s))
    = Exc SystemExit.
Proof.
  destruct (unauthorized_ends_the_timeline_only Z sample_parse sample_to_unix
              page_401 [page_a] (replicate 3 r_401) (replicate 1440 r_401s))
    as (Htl & _ & Hshow).
  - reflexivity.
  - reflexivity.
  - apply Forall_replicate. split; reflexivity.
  - apply Forall_replicate. split; reflexivity.
  - split; [exact Htl|]. rewrite Hshow, length_replicate. reflexivity.
Defined.
